(** * Workshop app: session server (server.js) and browser client (app.js)

    A shallow embedding of the two programs of the repository.

    - [Server]: the WebSocket message router of server.js.  The module-level
      [workshopState] is threaded explicitly through the handlers; every
      [send] call the handlers make is recorded, in order, in an outbox.
    - [Client]: the connection life cycle, heartbeat, reconnect schedule and
      participant view of the [WorkshopApp] class of app.js (the version with
      heartbeat and backoff).  Timer and socket callbacks are functions from
      the object's fields to the new fields and a list of effects.

    Conventions.  A socket object is identified by a number ([===] on
    sockets is equality of these numbers).  Payload fields carry the types of
    the wire protocol: names and ids are strings, step ids and step indices
    are integers.  [Date.now()] and [Math.random()] are inputs of the
    callbacks that read them. *)

From Stdlib Require Import ZArith List String Bool Lia.
Import ListNotations.

Local Open Scope string_scope.
Local Open Scope Z_scope.
Local Open Scope list_scope.

(** ** Wire protocol *)

(** Socket identity. *)
Definition socket_id := nat.

(** [WebSocket.readyState]. *)
Inductive readyState := CONNECTING | OPEN | CLOSING | CLOSED.

Definition readyState_eqb (a b : readyState) : bool :=
  match a, b with
  | CONNECTING, CONNECTING | OPEN, OPEN | CLOSING, CLOSING | CLOSED, CLOSED => true
  | _, _ => false
  end.

(** A client-to-server message after [JSON.parse]: the [type] tag and the
    payload fields the handlers read. *)
Record data := mkData {
  d_type : string;
  d_name : string;
  d_stepId : Z;
  d_stepIndex : Z
}.

Definition msg_join (name : string) : data := mkData "join" name 0 0.
Definition msg_step_complete (stepId : Z) : data := mkData "step_complete" "" stepId 0.
Definition msg_step_change (stepIndex : Z) : data := mkData "step_change" "" 0 stepIndex.
Definition msg_request_state : data := mkData "request_state" "" 0 0.
Definition msg_ping : data := mkData "ping" "" 0 0.

(** The view of a participant that goes over the wire (no socket). *)
Record participant_view := mkView {
  v_id : string;
  v_name : string;
  v_completedSteps : list Z
}.

(** A server-to-client message.  [pong] is the tag the client's [onmessage]
    looks for. *)
Inductive server_msg :=
| joined (participantId : string) (currentStep : Z)
| participant_joined (participant : participant_view)
| participant_left (participantId : string)
| step_completed (participantId : string) (stepId : Z)
| step_changed (stepIndex : Z)
| state_update (participants : list participant_view) (currentStep : Z)
| pong.

(** ** JavaScript [Set] and [Map], in insertion order

    Both iterate in insertion order, and the server's loops stop at the
    first match, so the order is part of the model: a set is the list of
    its elements, a map the list of its entries. *)

Module JsSet.
(** [Set.prototype.has]. *)
Definition has (x : Z) (s : list Z) : bool := existsb (Z.eqb x) s.

(** [Set.prototype.add]: a value already present is not added again. *)
Definition add (x : Z) (s : list Z) : list Z :=
  if has x s then s else s ++ [x].

(** [Set.prototype.size]. *)
Definition size (s : list Z) : Z := Z.of_nat (List.length s).
End JsSet.

Module JsMap.
Section WithValue.
Context {V : Type}.

(** [Map.prototype.set]: an existing key keeps its position and gets the
    new value, a new key goes to the end. *)
Fixpoint set (k : string) (v : V) (m : list (string * V)) : list (string * V) :=
  match m with
  | [] => [(k, v)]
  | (k', v') :: m' =>
      if String.eqb k' k then (k, v) :: m' else (k', v') :: set k v m'
  end.

(** [Map.prototype.delete]. *)
Fixpoint delete (k : string) (m : list (string * V)) : list (string * V) :=
  match m with
  | [] => []
  | (k', v') :: m' =>
      if String.eqb k' k then m' else (k', v') :: delete k m'
  end.

(** [Map.prototype.get]. *)
Fixpoint get (k : string) (m : list (string * V)) : option V :=
  match m with
  | [] => None
  | (k', v') :: m' => if String.eqb k' k then Some v' else get k m'
  end.

(** [Map.prototype.values], as an array. *)
Definition values (m : list (string * V)) : list V := List.map snd m.

Definition keys (m : list (string * V)) : list string := List.map fst m.

(** [Map.prototype.size]. *)
Definition size (m : list (string * V)) : Z := Z.of_nat (List.length m).
End WithValue.
End JsMap.

(** ** server.js *)

Module Server.

(** A participant object as [handleJoin] builds it. *)
Record participant := mkParticipant {
  p_id : string;
  p_name : string;
  p_completedSteps : list Z;
  p_ws : socket_id
}.

(** A step of the workshop ([steps] stays empty on the server). *)
Record step := mkStep { s_id : Z; s_title : string }.

(** [workshopState]. *)
Record workshopState := mkState {
  participants : list (string * participant);
  currentStep : Z;
  steps : list step
}.

(** The value [workshopState] is initialised with. *)
Definition initialState : workshopState := mkState [] 0 [].

(** [wss.clients]: the sockets the server holds, each with its
    [readyState]. *)
Definition clients := list (socket_id * readyState).

(** One [send] call: the socket and the message. *)
Definition outbox := list (socket_id * server_msg).

Definition with_participants (st : workshopState) (ps : list (string * participant)) :=
  mkState ps (currentStep st) (steps st).

Definition with_currentStep (st : workshopState) (i : Z) :=
  mkState (participants st) i (steps st).

(** [broadcast(data, excludeWs = null)]: one [send] per client that is not
    [excludeWs] and is [OPEN], in the order of [wss.clients]. *)
Definition broadcast (wss : clients) (msg : server_msg)
           (excludeWs : option socket_id) : outbox :=
  List.map (fun c => (fst c, msg))
    (List.filter
       (fun c =>
          negb (match excludeWs with
                | Some x => Nat.eqb (fst c) x
                | None => false
                end)
          && readyState_eqb (snd c) OPEN)
       wss).

Definition view_of (p : participant) : participant_view :=
  mkView (p_id p) (p_name p) (p_completedSteps p).

(** [handleJoin(ws, data)]; [newId] is the value [generateId()] returns,
    a string drawn from [Math.random()]. *)
Definition handleJoin (wss : clients) (newId : string) (ws : socket_id)
           (d : data) (st : workshopState) : workshopState * outbox :=
  let participant := mkParticipant newId (d_name d) [] ws in
  let st' := with_participants st (JsMap.set (p_id participant) participant (participants st)) in
  (st',
   [(ws, joined (p_id participant) (currentStep st'))]
     ++ broadcast wss (participant_joined (view_of participant)) None).

(** [findParticipantByWs(ws)]: the first participant, in the order of the
    map, whose socket is [ws]. *)
Definition findParticipantByWs (ws : socket_id) (st : workshopState) : option participant :=
  List.find (fun p => Nat.eqb (p_ws p) ws) (JsMap.values (participants st)).

(** The in-place update of the object [findParticipantByWs] returned: the
    map entry holding that object sees the change. *)
Fixpoint mutate_first (ws : socket_id) (f : participant -> participant)
         (m : list (string * participant)) : list (string * participant) :=
  match m with
  | [] => []
  | (k, p) :: m' =>
      if Nat.eqb (p_ws p) ws then (k, f p) :: m'
      else (k, p) :: mutate_first ws f m'
  end.

Definition add_completed (stepId : Z) (p : participant) : participant :=
  mkParticipant (p_id p) (p_name p) (JsSet.add stepId (p_completedSteps p)) (p_ws p).

(** [handleStepComplete(ws, data)]. *)
Definition handleStepComplete (wss : clients) (ws : socket_id) (d : data)
           (st : workshopState) : workshopState * outbox :=
  match findParticipantByWs ws st with
  | Some participant =>
      (with_participants st
         (mutate_first ws (add_completed (d_stepId d)) (participants st)),
       broadcast wss (step_completed (p_id participant) (d_stepId d)) None)
  | None => (st, [])
  end.

(** [handleStepChange(ws, data)]. *)
Definition handleStepChange (wss : clients) (ws : socket_id) (d : data)
           (st : workshopState) : workshopState * outbox :=
  (with_currentStep st (d_stepIndex d),
   broadcast wss (step_changed (d_stepIndex d)) None).

(** [sendCurrentState(ws)]. *)
Definition sendCurrentState (ws : socket_id) (st : workshopState) : workshopState * outbox :=
  (st,
   [(ws, state_update (List.map view_of (JsMap.values (participants st)))
                      (currentStep st))]).

(** [handleMessage(ws, data)]: the [switch] on [data.type]; a tag with no
    [case] falls through and nothing happens. *)
Definition handleMessage (wss : clients) (newId : string) (ws : socket_id)
           (d : data) (st : workshopState) : workshopState * outbox :=
  if String.eqb (d_type d) "join" then handleJoin wss newId ws d st
  else if String.eqb (d_type d) "step_complete" then handleStepComplete wss ws d st
  else if String.eqb (d_type d) "step_change" then handleStepChange wss ws d st
  else if String.eqb (d_type d) "request_state" then sendCurrentState ws st
  else (st, []).

(** The ['message'] listener: [raw] is [None] when [JSON.parse] throws,
    which the [catch] swallows. *)
Definition onMessage (wss : clients) (newId : string) (ws : socket_id)
           (raw : option data) (st : workshopState) : workshopState * outbox :=
  match raw with
  | Some d => handleMessage wss newId ws d st
  | None => (st, [])
  end.

(** The ['close'] listener: the first entry whose socket is [ws] is
    deleted and announced, then the loop [break]s. *)
Definition onClose (wss : clients) (ws : socket_id) (st : workshopState)
  : workshopState * outbox :=
  match List.find (fun e => Nat.eqb (p_ws (snd e)) ws) (participants st) with
  | Some (id, _) =>
      (with_participants st (JsMap.delete id (participants st)),
       broadcast wss (participant_left id) None)
  | None => (st, [])
  end.

(** *** The server as a whole *)

Record server := mkServer {
  state : workshopState;
  wss_clients : clients
}.

Definition boot : server := mkServer initialState [].

(** What the outside world does to the server.  [message] carries the
    value [generateId()] would return during its handling. *)
Inductive event :=
| connection (ws : socket_id)
| message (ws : socket_id) (raw : option data) (newId : string)
| close (ws : socket_id).

(** A closed socket has left [wss.clients] by the time its ['close']
    listener runs (the [ws] library removes it first). *)
Definition drop_client (ws : socket_id) (wss : clients) : clients :=
  List.filter (fun c => negb (Nat.eqb (fst c) ws)) wss.

Definition step_server (ev : event) (sv : server) : server * outbox :=
  match ev with
  | connection ws =>
      (mkServer (state sv) (wss_clients sv ++ [(ws, OPEN)]), [])
  | message ws raw newId =>
      let '(st', out) := onMessage (wss_clients sv) newId ws raw (state sv) in
      (mkServer st' (wss_clients sv), out)
  | close ws =>
      let wss' := drop_client ws (wss_clients sv) in
      let '(st', out) := onClose wss' ws (state sv) in
      (mkServer st' wss', out)
  end.

Fixpoint run (evs : list event) (sv : server) : server * outbox :=
  match evs with
  | [] => (sv, [])
  | ev :: evs' =>
      let '(sv', out) := step_server ev sv in
      let '(sv'', out') := run evs' sv' in
      (sv'', out ++ out')
  end.

(** *** Bindings of sockets to participants *)

(** The entries of the registry whose socket is [ws]. *)
Definition bound_to (ws : socket_id) (st : workshopState) : list participant :=
  List.filter (fun p => Nat.eqb (p_ws p) ws) (JsMap.values (participants st)).

(** The socket of every entry of the registry, in map order. *)
Definition bound_sockets (st : workshopState) : list socket_id :=
  List.map p_ws (JsMap.values (participants st)).

(** The registry invariant: sockets of entries pairwise distinct, keys
    pairwise distinct. *)
Definition registry_ok (st : workshopState) : Prop :=
  NoDup (bound_sockets st) /\ NoDup (JsMap.keys (participants st)).

(** [ev] is not a [join] arriving on a socket that has a participant. *)
Definition joins_unbound (ev : event) (sv : server) : bool :=
  match ev with
  | message ws (Some d) _ =>
      if String.eqb (d_type d) "join"
      then match findParticipantByWs ws (state sv) with
           | None => true
           | Some _ => false
           end
      else true
  | _ => true
  end.

(** Along the run of [evs] from [sv], no socket joins while it has a
    participant. *)
Fixpoint joins_once (evs : list event) (sv : server) : bool :=
  match evs with
  | [] => true
  | ev :: evs' => joins_unbound ev sv && joins_once evs' (fst (step_server ev sv))
  end.

(** *** Sample sessions *)

(** Two sockets connect; socket 0 joins as Alice and completes step 2. *)
Definition alice_session : list event :=
  [connection 0%nat; connection 1%nat;
   message 0%nat (Some (msg_join "Alice")) "a1";
   message 0%nat (Some (msg_step_complete 2)) "r2"].

Definition alice_joined : server := fst (run alice_session boot).

(** One socket sends [join] twice; [generateId] draws two different ids. *)
Definition double_join : list event :=
  [connection 0%nat;
   message 0%nat (Some (msg_join "Alice")) "a1";
   message 0%nat (Some (msg_join "Alice")) "a2"].

(** A longer session in which every socket joins at most once: joins, a
    completed step, a leave, a late joiner who changes the step, a ping and
    a payload that does not parse. *)
Definition busy_session : list event :=
  [connection 0%nat; connection 1%nat;
   message 0%nat (Some (msg_join "Alice")) "a1";
   message 1%nat (Some (msg_join "Bob")) "b1";
   message 0%nat (Some (msg_step_complete 2)) "r3";
   close 0%nat;
   connection 2%nat;
   message 2%nat (Some (msg_join "Carol")) "c1";
   message 2%nat (Some (msg_step_change 1)) "r4";
   message 1%nat (Some msg_ping) "r5";
   message 1%nat None "r6"].

(** *** Kinds of events *)

(** [ev] is a message whose [type] is [step_change]: the one input that
    reaches [handleStepChange]. *)
Definition is_step_change (ev : event) : bool :=
  match ev with
  | message _ (Some d) _ => String.eqb (d_type d) "step_change"
  | _ => false
  end.

End Server.

(** ** app.js *)

Module Client.

(** An entry of steps.json. *)
Record step := mkStep { s_id : Z; s_title : string }.

(** What a callback asks of the browser, in the order it asks. *)
Inductive effect :=
| new_WebSocket
| ws_send (d : data)
| ws_close
| setTimeout_setupWebSocket (delay : Z)
| clearTimeout
| setInterval_ping (period : Z)
| clearInterval
| showConnectionStatus (status : string) (reconnectDelay : Z)
| loadQRCode
| alert
| render
| renderParticipants.

(** The fields of a [WorkshopApp] object.  [ws] is [None] for [null] and
    otherwise the [readyState] of the current socket; [reconnectTimeout]
    and [pingInterval] are timer handles ([None] while unset);
    [reconnectAttempts] and [lastPong] are read only after
    [setupWebSocket] and [startHeartbeat] have assigned them. *)
Record WorkshopApp := mkApp {
  steps : list step;
  currentStepIndex : Z;
  mode : string;
  participantId : option string;
  participantName : option string;
  participants : list (string * participant_view);
  completedSteps : list Z;
  ws : option readyState;
  reconnectAttempts : Z;
  reconnectTimeout : option Z;
  pingInterval : option Z;
  lastPong : Z
}.

(** The object once [loadSteps] has run: the constructor's values plus the
    loaded steps; [mode] is what [getMode] read from the URL. *)
Definition init (loaded : list step) (urlMode : string) : WorkshopApp :=
  mkApp loaded 0 urlMode None None [] [] None 0 None None 0.

Definition set_currentStepIndex (a : WorkshopApp) (i : Z) : WorkshopApp :=
  mkApp (steps a) i (mode a) (participantId a) (participantName a)
        (participants a) (completedSteps a) (ws a) (reconnectAttempts a)
        (reconnectTimeout a) (pingInterval a) (lastPong a).

Definition set_participantId (a : WorkshopApp) (i : option string) : WorkshopApp :=
  mkApp (steps a) (currentStepIndex a) (mode a) i (participantName a)
        (participants a) (completedSteps a) (ws a) (reconnectAttempts a)
        (reconnectTimeout a) (pingInterval a) (lastPong a).

Definition set_participantName (a : WorkshopApp) (n : option string) : WorkshopApp :=
  mkApp (steps a) (currentStepIndex a) (mode a) (participantId a) n
        (participants a) (completedSteps a) (ws a) (reconnectAttempts a)
        (reconnectTimeout a) (pingInterval a) (lastPong a).

Definition set_participants (a : WorkshopApp) (m : list (string * participant_view)) : WorkshopApp :=
  mkApp (steps a) (currentStepIndex a) (mode a) (participantId a) (participantName a)
        m (completedSteps a) (ws a) (reconnectAttempts a)
        (reconnectTimeout a) (pingInterval a) (lastPong a).

Definition set_completedSteps (a : WorkshopApp) (s : list Z) : WorkshopApp :=
  mkApp (steps a) (currentStepIndex a) (mode a) (participantId a) (participantName a)
        (participants a) s (ws a) (reconnectAttempts a)
        (reconnectTimeout a) (pingInterval a) (lastPong a).

Definition set_ws (a : WorkshopApp) (w : option readyState) : WorkshopApp :=
  mkApp (steps a) (currentStepIndex a) (mode a) (participantId a) (participantName a)
        (participants a) (completedSteps a) w (reconnectAttempts a)
        (reconnectTimeout a) (pingInterval a) (lastPong a).

Definition set_reconnectAttempts (a : WorkshopApp) (n : Z) : WorkshopApp :=
  mkApp (steps a) (currentStepIndex a) (mode a) (participantId a) (participantName a)
        (participants a) (completedSteps a) (ws a) n
        (reconnectTimeout a) (pingInterval a) (lastPong a).

Definition set_reconnectTimeout (a : WorkshopApp) (t : option Z) : WorkshopApp :=
  mkApp (steps a) (currentStepIndex a) (mode a) (participantId a) (participantName a)
        (participants a) (completedSteps a) (ws a) (reconnectAttempts a)
        t (pingInterval a) (lastPong a).

Definition set_pingInterval (a : WorkshopApp) (t : option Z) : WorkshopApp :=
  mkApp (steps a) (currentStepIndex a) (mode a) (participantId a) (participantName a)
        (participants a) (completedSteps a) (ws a) (reconnectAttempts a)
        (reconnectTimeout a) t (lastPong a).

Definition set_lastPong (a : WorkshopApp) (t : Z) : WorkshopApp :=
  mkApp (steps a) (currentStepIndex a) (mode a) (participantId a) (participantName a)
        (participants a) (completedSteps a) (ws a) (reconnectAttempts a)
        (reconnectTimeout a) (pingInterval a) t.

(** Truthiness of a value that is [null] or a string. *)
Definition truthy (o : option string) : bool :=
  match o with
  | Some s => negb (String.eqb s "")
  | None => false
  end.

(** [this.ws && this.ws.readyState === WebSocket.OPEN]. *)
Definition ws_is (r : readyState) (a : WorkshopApp) : bool :=
  match ws a with
  | Some r' => readyState_eqb r' r
  | None => false
  end.

(** [this.steps[i]]: [None] stands for [undefined]. *)
Definition steps_at (a : WorkshopApp) (i : Z) : option step :=
  if i <? 0 then None else nth_error (steps a) (Z.to_nat i).

Definition steps_length (a : WorkshopApp) : Z := Z.of_nat (List.length (steps a)).

(** *** Connection life cycle *)

(** [setupWebSocket()], up to the installation of the four callbacks. *)
Definition setupWebSocket (a : WorkshopApp) : WorkshopApp * list effect :=
  if ws_is CONNECTING a then (a, [])
  else
    let a := set_ws a (Some CONNECTING) in
    let a := set_reconnectAttempts a 0 in
    (a, [new_WebSocket]).

(** [stopHeartbeat()]. *)
Definition stopHeartbeat (a : WorkshopApp) : WorkshopApp * list effect :=
  match pingInterval a with
  | Some _ => (set_pingInterval a None, [clearInterval])
  | None => (a, [])
  end.

(** [startHeartbeat()]; [now] is [Date.now()]. *)
Definition startHeartbeat (now : Z) (a : WorkshopApp) : WorkshopApp * list effect :=
  let '(a, e1) := stopHeartbeat a in
  let a := set_lastPong a now in
  let a := set_pingInterval a (Some 5000) in
  (a, e1 ++ [setInterval_ping 5000]).

(** The callback [startHeartbeat] hands to [setInterval]; [now] is
    [Date.now()].  [ws.close()] puts the socket in [CLOSING]. *)
Definition heartbeat (now : Z) (a : WorkshopApp) : WorkshopApp * list effect :=
  if ws_is OPEN a then
    if now - lastPong a >? 10000 then
      (set_ws a (Some CLOSING), [ws_send msg_ping; ws_close])
    else (a, [ws_send msg_ping])
  else (a, []).

(** [scheduleReconnect()]. *)
Definition scheduleReconnect (a : WorkshopApp) : WorkshopApp * list effect :=
  let e1 := match reconnectTimeout a with
            | Some _ => [clearTimeout]
            | None => []
            end in
  let delay := Z.min (1000 * 2 ^ reconnectAttempts a) 30000 in
  let a := set_reconnectAttempts a (reconnectAttempts a + 1) in
  let a := set_reconnectTimeout a (Some delay) in
  (a, e1 ++ [showConnectionStatus "reconnecting" delay;
             setTimeout_setupWebSocket delay]).

(** [rejoinWorkshop()]. *)
Definition rejoinWorkshop (a : WorkshopApp) : WorkshopApp * list effect :=
  (a, [ws_send (msg_join (match participantName a with
                          | Some n => n
                          | None => ""
                          end))]).

(** [ws.onopen]; [now] is the [Date.now()] of [startHeartbeat]. *)
Definition onopen (now : Z) (a : WorkshopApp) : WorkshopApp * list effect :=
  let a := set_reconnectAttempts a 0 in
  let e1 := [showConnectionStatus "connected" 0] in
  let '(a, e2) :=
    if String.eqb (mode a) "participant" && truthy (participantName a)
       && negb (truthy (participantId a))
    then rejoinWorkshop a
    else if String.eqb (mode a) "master"
         then (a, [ws_send msg_request_state; loadQRCode])
         else (a, []) in
  let '(a, e3) := startHeartbeat now a in
  (a, e1 ++ e2 ++ e3).

(** [ws.onclose]. *)
Definition onclose (a : WorkshopApp) : WorkshopApp * list effect :=
  let e1 := [showConnectionStatus "disconnected" 0] in
  let '(a, e2) := stopHeartbeat a in
  let '(a, e3) := scheduleReconnect a in
  (a, e1 ++ e2 ++ e3).

(** [ws.onerror]. *)
Definition onerror (a : WorkshopApp) : WorkshopApp * list effect :=
  (a, [showConnectionStatus "error" 0]).

(** *** Messages from the server *)

(** The [step_completed] arm's update of one mirrored participant:
    [includes] then [push]. *)
Definition push_completed (stepId : Z) (p : participant_view) : participant_view :=
  mkView (v_id p) (v_name p)
         (if existsb (Z.eqb stepId) (v_completedSteps p)
          then v_completedSteps p
          else v_completedSteps p ++ [stepId]).

(** Whether [render()] throws.  [renderMaster] (mode master) and
    [renderParticipant] (any other mode, once an id is held) read
    [steps[currentStepIndex].id] when there are steps; that read is a
    [TypeError] when the index points at no step, and what follows the
    [render()] call in the caller is then not run. *)
Definition render_throws (a : WorkshopApp) : bool :=
  (steps_length a >? 0)
  && (String.eqb (mode a) "master" || truthy (participantId a))
  && match steps_at a (currentStepIndex a) with
     | Some _ => false
     | None => true
     end.

(** [handleWebSocketMessage(data)].  In the [state_update] arm
    [renderParticipants()] follows [render()] and is skipped when that
    throws; in the other arms the render call comes last. *)
Definition handleWebSocketMessage (d : server_msg) (a : WorkshopApp)
  : WorkshopApp * list effect :=
  match d with
  | joined participantId currentStep =>
      let a := set_participantId a (Some participantId) in
      let a := set_currentStepIndex a currentStep in
      (a, [render])
  | participant_joined participant =>
      (set_participants a (JsMap.set (v_id participant) participant (participants a)),
       [renderParticipants])
  | participant_left participantId =>
      (set_participants a (JsMap.delete participantId (participants a)),
       [renderParticipants])
  | step_completed participantId stepId =>
      match JsMap.get participantId (participants a) with
      | Some participant =>
          (set_participants a
             (JsMap.set participantId (push_completed stepId participant) (participants a)),
           [renderParticipants])
      | None => (a, [])
      end
  | step_changed stepIndex =>
      (set_currentStepIndex a stepIndex, [render])
  | state_update ps currentStep =>
      let a := set_participants a
                 (fold_left (fun m p => JsMap.set (v_id p) p m) ps (participants a)) in
      let a := set_currentStepIndex a currentStep in
      (a, if render_throws a then [render] else [render; renderParticipants])
  | pong => (a, [])
  end.

(** [ws.onmessage]; [now] is [Date.now()]. *)
Definition onmessage (now : Z) (d : server_msg) (a : WorkshopApp)
  : WorkshopApp * list effect :=
  match d with
  | pong => (set_lastPong a now, [])
  | _ => handleWebSocketMessage d a
  end.

(** *** Buttons *)

(** [joinWorkshop()]; [name] is the trimmed content of the input field. *)
Definition joinWorkshop (name : string) (a : WorkshopApp) : WorkshopApp * list effect :=
  if String.eqb name "" then (a, [alert])
  else
    let a := set_participantName a (Some name) in
    if ws_is OPEN a then (a, [ws_send (msg_join name)]) else (a, []).

(** [completeCurrentStep()].  When [steps[currentStepIndex]] is
    [undefined], reading its [id] throws and the call ends there, with no
    field changed. *)
Definition completeCurrentStep (a : WorkshopApp) : WorkshopApp * list effect :=
  if negb (String.eqb (mode a) "participant") || negb (truthy (participantId a))
     || (steps_length a =? 0)
  then (a, [])
  else
    match steps_at a (currentStepIndex a) with
    | None => (a, [])
    | Some currentStep =>
        if JsSet.has (s_id currentStep) (completedSteps a) then (a, [])
        else
          let a := set_completedSteps a (JsSet.add (s_id currentStep) (completedSteps a)) in
          let e1 := if ws_is OPEN a
                    then [ws_send (msg_step_complete (s_id currentStep))]
                    else [] in
          (a, e1 ++ [render])
    end.

(** [previousStepMaster()].  When [render()] throws, the [send] after it
    is not reached. *)
Definition previousStepMaster (a : WorkshopApp) : WorkshopApp * list effect :=
  if negb (String.eqb (mode a) "master") || (currentStepIndex a =? 0) then (a, [])
  else
    let a := set_currentStepIndex a (currentStepIndex a - 1) in
    if render_throws a then (a, [render])
    else (a, [render] ++ (if ws_is OPEN a
                          then [ws_send (msg_step_change (currentStepIndex a))]
                          else [])).

(** [nextStepMaster()].  When [render()] throws, the [send] after it is
    not reached. *)
Definition nextStepMaster (a : WorkshopApp) : WorkshopApp * list effect :=
  if negb (String.eqb (mode a) "master")
     || (currentStepIndex a >=? steps_length a - 1)
  then (a, [])
  else
    let a := set_currentStepIndex a (currentStepIndex a + 1) in
    if render_throws a then (a, [render])
    else (a, [render] ++ (if ws_is OPEN a
                          then [ws_send (msg_step_change (currentStepIndex a))]
                          else [])).

(** *** Participant view *)

(** The two numbers [renderParticipant] writes into the progress text,
    [completedCount] and [totalCount].  The width of the bar is computed
    from them in floating point, [(completedCount / totalCount) * 100], and
    is not part of this model. *)
Record progress_text := mkProgress {
  text_completed : Z;
  text_total : Z
}.

(** [renderParticipant()], the progress part.  [None] when the guard fails
    (nothing is written) or when [steps[currentStepIndex]] is [undefined]
    (the read of its [id] throws before the progress is written). *)
Definition renderParticipant (a : WorkshopApp) : option progress_text :=
  if (steps_length a >? 0) && truthy (participantId a) then
    match steps_at a (currentStepIndex a) with
    | None => None
    | Some _ =>
        let completedCount := JsSet.size (completedSteps a) in
        let totalCount := steps_length a in
        Some (mkProgress completedCount totalCount)
    end
  else None.

(** *** The client as a whole *)

(** What can happen to a client after [loadSteps]: socket and timer
    callbacks (the browser moves [readyState] before it calls them) and
    button presses.  [ev_setup] is a call of [setupWebSocket], from [init]
    or from the reconnect timer. *)
Inductive event :=
| ev_setup
| ev_open (now : Z)
| ev_message (now : Z) (d : server_msg)
| ev_close
| ev_error
| ev_heartbeat (now : Z)
| ev_joinWorkshop (name : string)
| ev_completeCurrentStep
| ev_previousStepMaster
| ev_nextStepMaster.

Definition step_client (ev : event) (a : WorkshopApp) : WorkshopApp * list effect :=
  match ev with
  | ev_setup => setupWebSocket a
  | ev_open now => onopen now (set_ws a (Some OPEN))
  | ev_message now d => onmessage now d a
  | ev_close => onclose (set_ws a (Some CLOSED))
  | ev_error => onerror a
  | ev_heartbeat now => heartbeat now a
  | ev_joinWorkshop name => joinWorkshop name a
  | ev_completeCurrentStep => completeCurrentStep a
  | ev_previousStepMaster => previousStepMaster a
  | ev_nextStepMaster => nextStepMaster a
  end.

Fixpoint run (evs : list event) (a : WorkshopApp) : WorkshopApp * list effect :=
  match evs with
  | [] => (a, [])
  | ev :: evs' =>
      let '(a', e) := step_client ev a in
      let '(a'', e') := run evs' a' in
      (a'', e ++ e')
  end.

(** The delays handed to [setTimeout] for a reconnect, in order. *)
Fixpoint reconnect_delays (es : list effect) : list Z :=
  match es with
  | [] => []
  | setTimeout_setupWebSocket delay :: es' => delay :: reconnect_delays es'
  | _ :: es' => reconnect_delays es'
  end.

(** A connection attempt that fails: the reconnect timer fires
    ([setupWebSocket]), then the socket closes without having opened. *)
Definition failed_attempt : list event := [ev_setup; ev_close].

Fixpoint failures (n : nat) : list event :=
  match n with
  | O => []
  | S n' => failed_attempt ++ failures n'
  end.

(** The local set of completed steps holds ids of loaded steps, each once. *)
Definition completed_within_steps (a : WorkshopApp) : Prop :=
  NoDup (completedSteps a)
  /\ incl (completedSteps a) (List.map s_id (steps a)).

(** *** Sample clients *)

(** A participant client with two steps whose socket opened at time [t0]. *)
Definition opened_at (t0 : Z) : WorkshopApp :=
  fst (run [ev_setup; ev_open t0]
           (init [mkStep 1 "Intro"; mkStep 2 "Build"] "participant")).

(** *** Reading the effects *)

(** The messages handed to [ws.send], in order. *)
Fixpoint sends (es : list effect) : list data :=
  match es with
  | [] => []
  | ws_send d :: es' => d :: sends es'
  | _ :: es' => sends es'
  end.

(** Intervals started minus intervals cleared. *)
Fixpoint live_intervals (es : list effect) : Z :=
  match es with
  | [] => 0
  | setInterval_ping _ :: es' => 1 + live_intervals es'
  | clearInterval :: es' => live_intervals es' - 1
  | _ :: es' => live_intervals es'
  end.

(** One when a heartbeat interval handle is held, zero when not. *)
Definition interval_count (a : WorkshopApp) : Z :=
  match pingInterval a with Some _ => 1 | None => 0 end.

(** [ev] is the arrival of a [joined] message. *)
Definition is_joined_message (ev : event) : bool :=
  match ev with
  | ev_message _ (joined _ _) => true
  | _ => false
  end.

(** *** More sample clients *)

(** A participant who has been given id "a1" and whose socket then closed. *)
Definition participant_offline : WorkshopApp :=
  fst (run [ev_message 0 (joined "a1" 0); ev_close] (opened_at 0)).

(** A participant client that has loaded its steps and has no socket yet. *)
Definition participant_fresh : WorkshopApp :=
  init [mkStep 1 "Intro"; mkStep 2 "Build"] "participant".

(** A master client with three steps, connected, showing the second. *)
Definition master_on_second : WorkshopApp :=
  fst (run [ev_setup; ev_open 0; ev_nextStepMaster]
           (init [mkStep 1 "Intro"; mkStep 2 "Build"; mkStep 3 "Ship"] "master")).

(** *** The browser's interval timer

    [setInterval(f, p)] at time [now] makes the browser call [f] at
    [now + p] and every [p] after that, until [clearInterval].  The
    browser below keeps the one interval the client uses: the time of its
    next call and its period, as the client's own [setInterval_ping] and
    [clearInterval] effects leave it.  Timers are punctual. *)

Record browser := mkBrowser {
  webapp : WorkshopApp;
  interval : option (Z * Z)
}.

(** What the effects of a callback run at [now] do to the interval. *)
Fixpoint timers (now : Z) (es : list effect) (iv : option (Z * Z)) : option (Z * Z) :=
  match es with
  | [] => iv
  | setInterval_ping period :: es' => timers now es' (Some (now + period, period))
  | clearInterval :: es' => timers now es' None
  | _ :: es' => timers now es' iv
  end.

(** The browser hands [ev] to the client at time [now]. *)
Definition deliver (now : Z) (ev : event) (b : browser) : browser * list effect :=
  let '(a, es) := step_client ev (webapp b) in
  (mkBrowser a (timers now es (interval b)), es).

(** The interval comes due: the browser runs the heartbeat callback at the
    due time and re-arms the interval one period later.  With no interval
    armed nothing happens. *)
Definition fire (b : browser) : browser * list effect :=
  match interval b with
  | Some (due, period) =>
      let '(a, es) := step_client (ev_heartbeat due) (webapp b) in
      (mkBrowser a (timers due es (Some (due + period, period))), es)
  | None => (b, [])
  end.

Fixpoint fire_n (n : nat) (b : browser) : browser * list effect :=
  match n with
  | O => (b, [])
  | S n' =>
      let '(b1, e1) := fire b in
      let '(b2, e2) := fire_n n' b1 in
      (b2, e1 ++ e2)
  end.

(** How many times the interval comes due up to and including [until]. *)
Definition ticks_due (until : Z) (b : browser) : nat :=
  match interval b with
  | Some (due, period) =>
      if (due <=? until) && (0 <? period)
      then Z.to_nat ((until - due) / period + 1)
      else O
  | None => O
  end.

(** Time passes up to [until] with nothing but the interval happening. *)
Definition elapse (until : Z) (b : browser) : browser * list effect :=
  fire_n (ticks_due until b) b.

(** Pongs arrive at the given times; in between only the interval runs. *)
Fixpoint receive_pongs (pongs : list Z) (b : browser) : browser * list effect :=
  match pongs with
  | [] => (b, [])
  | t :: rest =>
      let '(b1, e1) := elapse t b in
      let '(b2, e2) := deliver t (ev_message t pong) b1 in
      let '(b3, e3) := receive_pongs rest b2 in
      (b3, e1 ++ e2 ++ e3)
  end.

(** A connection that opens at [t0], gets pongs at the times [pongs] and
    then hears nothing more, followed up to time [until]. *)
Definition session (t0 : Z) (pongs : list Z) (until : Z) (b : browser)
  : browser * list effect :=
  let '(b0, e0) := deliver t0 (ev_open t0) b in
  let '(b1, e1) := receive_pongs pongs b0 in
  let '(b2, e2) := elapse until b1 in
  (b2, e0 ++ e1 ++ e2).

(** The times [pongs] follow [t] and each other. *)
Fixpoint in_order (t : Z) (pongs : list Z) : bool :=
  match pongs with
  | [] => true
  | p :: rest => (t <=? p) && in_order p rest
  end.

(** The time of the last pong, [t0] (the opening) when there is none. *)
Fixpoint last_pong (t0 : Z) (pongs : list Z) : Z :=
  match pongs with
  | [] => t0
  | p :: rest => last_pong p rest
  end.

(** The heartbeat interval is armed with its next call at [due], and the
    socket is open or has been closed by the client. *)
Definition armed (b : browser) (due : Z) : Prop :=
  interval b = Some (due, 5000)
  /\ (ws (webapp b) = Some OPEN \/ ws (webapp b) = Some CLOSING).

End Client.

(** * Properties of the server *)

Section ServerFacts.

Import Server.

Implicit Types (wss : clients) (ws c : socket_id) (st : workshopState)
         (newId : string) (d : data).

(** *** Broadcast *)

Lemma broadcast_all_iff wss (msg : server_msg) c :
  In (c, msg) (broadcast wss msg None) <-> In (c, OPEN) wss.
Proof.
  unfold broadcast. rewrite in_map_iff. split.
  - intros [[c' r] [Heq Hin]]. simpl in Heq. inversion Heq; subst c'.
    apply filter_In in Hin. destruct Hin as [Hin Hopen]. simpl in Hopen.
    destruct r; simpl in Hopen; try discriminate. exact Hin.
  - intros Hin. exists (c, OPEN). split; [reflexivity|].
    apply filter_In. split; [exact Hin | reflexivity].
Qed.

Lemma broadcast_only_msg wss (msg msg' : server_msg) excl c :
  In (c, msg') (broadcast wss msg excl) -> msg' = msg.
Proof.
  unfold broadcast. rewrite in_map_iff.
  intros [x [Heq _]]. inversion Heq. reflexivity.
Qed.

Lemma broadcast_only_open wss (msg : server_msg) excl c :
  In (c, msg) (broadcast wss msg excl) -> In (c, OPEN) wss /\ excl <> Some c.
Proof.
  unfold broadcast. rewrite in_map_iff.
  intros [[c' r] [Heq Hin]]. simpl in Heq. inversion Heq; subst c'.
  apply filter_In in Hin. destruct Hin as [Hin Hok]. simpl in Hok.
  apply andb_prop in Hok. destruct Hok as [Hex Hopen].
  destruct r; simpl in Hopen; try discriminate. split; [exact Hin|].
  destruct excl as [x|]; [|discriminate].
  intros Hx. inversion Hx; subst x. rewrite Nat.eqb_refl in Hex. discriminate.
Qed.

(** *** The dispatch of [handleMessage] *)

Lemma handleMessage_join wss newId ws name st :
  handleMessage wss newId ws (msg_join name) st
  = handleJoin wss newId ws (msg_join name) st.
Proof. reflexivity. Qed.

Lemma handleMessage_step_complete wss newId ws stepId st :
  handleMessage wss newId ws (msg_step_complete stepId) st
  = handleStepComplete wss ws (msg_step_complete stepId) st.
Proof. reflexivity. Qed.

Lemma handleMessage_step_change wss newId ws stepIndex st :
  handleMessage wss newId ws (msg_step_change stepIndex) st
  = handleStepChange wss ws (msg_step_change stepIndex) st.
Proof. reflexivity. Qed.

Lemma handleMessage_request_state wss newId ws st :
  handleMessage wss newId ws msg_request_state st = sendCurrentState ws st.
Proof. reflexivity. Qed.

(** No handler of the server ever sends [pong]. *)
Lemma handleMessage_never_pong wss newId ws d st c :
  ~ In (c, pong) (snd (handleMessage wss newId ws d st)).
Proof.
  unfold handleMessage, handleJoin, handleStepComplete, handleStepChange,
    sendCurrentState.
  repeat match goal with
         | |- context [if ?b then _ else _] => destruct b
         | |- context [match ?o with Some _ => _ | None => _ end] => destruct o
         end; simpl; intros H;
    repeat match goal with
           | H : _ \/ _ |- _ => destruct H as [H|H]
           | H : (_, _) = (_, pong) |- _ => discriminate H
           | H : In (_, pong) (broadcast _ _ _) |- _ =>
               apply broadcast_only_msg in H; discriminate H
           | H : False |- _ => exact H
           end.
Qed.

(** C1, as the code has it: a [ping] arriving on any socket, open or not,
    joined or not, matches no [case] of [handleMessage]; the server state
    is unchanged and nothing is sent, so no [pong] goes back to the
    client that pinged. *)
Theorem ping_is_dropped :
  forall (sv : server) ws newId,
    step_server (message ws (Some msg_ping) newId) sv = (sv, []).
Proof. intros [st wss] ws newId. reflexivity. Qed.

(** *** Step change *)

(** C8: a [step_change] with any integer [stepIndex], negative or past the
    end of any step sequence, becomes [currentStep]; the participants and
    the step sequence are untouched, the latter is not even read, and
    [step_changed] with that index is broadcast. *)
Theorem step_change_overwrites_currentStep :
  forall wss newId ws (stepIndex : Z) st,
    let r := handleMessage wss newId ws (msg_step_change stepIndex) st in
    currentStep (fst r) = stepIndex
    /\ participants (fst r) = participants st
    /\ steps (fst r) = steps st
    /\ snd r = broadcast wss (step_changed stepIndex) None.
Proof. intros. subst r. repeat split. Qed.

(** C10: a [step_change] is applied whoever sends it.  For every socket,
    bound to a participant or not, known to [wss.clients] or not, the
    current step afterwards is the index received, the participants are
    untouched, and [step_changed] with that index, and nothing else, goes
    to exactly the open sockets; a second sender gets the very same
    result. *)
Theorem step_change_from_any_sender :
  forall wss newId ws ws' (stepIndex : Z) st,
    let r := handleMessage wss newId ws (msg_step_change stepIndex) st in
    currentStep (fst r) = stepIndex
    /\ participants (fst r) = participants st
    /\ (forall c, In (c, step_changed stepIndex) (snd r) <-> In (c, OPEN) wss)
    /\ Forall (fun m => snd m = step_changed stepIndex) (snd r)
    /\ handleMessage wss newId ws' (msg_step_change stepIndex) st = r.
Proof.
  intros wss newId ws ws' stepIndex st r. subst r.
  rewrite !handleMessage_step_change. unfold handleStepChange.
  cbn [fst snd d_stepIndex msg_step_change].
  split; [reflexivity|]. split; [reflexivity|].
  split; [intros c; apply broadcast_all_iff|]. split; [|reflexivity].
  apply Forall_forall. intros [c m] Hin. cbn [snd].
  exact (broadcast_only_msg _ _ _ _ _ Hin).
Qed.

(** Three senders, one outcome: a socket that never joined, a joined
    participant and a socket the server does not hold all move the step to
    7, and the two open sockets are told. *)
Example step_change_by_unjoined_joined_and_unknown :
  let outcome := (7, [(0%nat, step_changed 7); (1%nat, step_changed 7)]) in
  let result ws :=
    let r := step_server (message ws (Some (msg_step_change 7)) "r9") alice_joined in
    (currentStep (state (fst r)), snd r) in
  findParticipantByWs 1%nat (state alice_joined) = None
  /\ result 1%nat = outcome
  /\ findParticipantByWs 0%nat (state alice_joined)
     = Some (mkParticipant "a1" "Alice" [2] 0%nat)
  /\ result 0%nat = outcome
  /\ result 9%nat = outcome.
Proof. repeat split. Qed.

(** *** Step complete *)

Lemma findParticipantByWs_none ws st :
  (forall id p, In (id, p) (participants st) -> p_ws p <> ws) ->
  findParticipantByWs ws st = None.
Proof.
  unfold findParticipantByWs, JsMap.values.
  induction (participants st) as [|[k p] m IH]; intros H; simpl; [reflexivity|].
  destruct (Nat.eqb_spec (p_ws p) ws) as [Heq|Hne].
  - exfalso. apply (H k p); [left; reflexivity | exact Heq].
  - apply IH. intros id q Hin. apply (H id q). right. exact Hin.
Qed.

Lemma findParticipantByWs_some ws st p :
  findParticipantByWs ws st = Some p ->
  p_ws p = ws /\ exists id, In (id, p) (participants st).
Proof.
  unfold findParticipantByWs, JsMap.values.
  induction (participants st) as [|[k q] m IH]; simpl; [discriminate|].
  destruct (Nat.eqb_spec (p_ws q) ws) as [Heq|Hne].
  - intros H. inversion H; subst q. split; [exact Heq|].
    exists k. left. reflexivity.
  - intros H. destruct (IH H) as [Hws [id Hin]]. split; [exact Hws|].
    exists id. right. exact Hin.
Qed.

Lemma add_completed_present stepId (p : participant) :
  JsSet.has stepId (p_completedSteps p) = true -> add_completed stepId p = p.
Proof.
  intros H. unfold add_completed, JsSet.add. rewrite H. destruct p; reflexivity.
Qed.

(** Updating the first match by a function that fixes it changes nothing. *)
Lemma mutate_first_fixed ws f (m : list (string * participant)) p :
  List.find (fun q => Nat.eqb (p_ws q) ws) (JsMap.values m) = Some p ->
  f p = p ->
  mutate_first ws f m = m.
Proof.
  unfold JsMap.values.
  induction m as [|[k q] m IH]; simpl; [discriminate|].
  destruct (Nat.eqb (p_ws q) ws).
  - intros H Hf. inversion H; subst q. rewrite Hf. reflexivity.
  - intros H Hf. rewrite (IH H Hf). reflexivity.
Qed.

(** C6: when the participant the server finds for the sending socket
    already has [stepId] among its completed steps, handling
    [step_complete] leaves the whole state as it was: the same
    participants with the same sets, element for element.  (The
    [step_completed] event is broadcast all the same.) *)
Theorem step_complete_is_idempotent :
  forall wss newId ws (stepId : Z) st p,
    findParticipantByWs ws st = Some p ->
    JsSet.has stepId (p_completedSteps p) = true ->
    fst (handleMessage wss newId ws (msg_step_complete stepId) st) = st
    /\ snd (handleMessage wss newId ws (msg_step_complete stepId) st)
       = broadcast wss (step_completed (p_id p) stepId) None.
Proof.
  intros wss newId ws stepId st p Hfind Hhas.
  rewrite handleMessage_step_complete. unfold handleStepComplete.
  rewrite Hfind. simpl. split; [|reflexivity].
  unfold findParticipantByWs in Hfind.
  rewrite (mutate_first_fixed ws _ _ p Hfind (add_completed_present _ _ Hhas)).
  destruct st; reflexivity.
Qed.

(** The first [step_complete] for a step does add it: the idempotence
    above is not that of a handler that never records anything. *)
Lemma step_complete_records wss newId ws (stepId : Z) st p :
  findParticipantByWs ws st = Some p ->
  exists p',
    findParticipantByWs ws
      (fst (handleMessage wss newId ws (msg_step_complete stepId) st)) = Some p'
    /\ JsSet.has stepId (p_completedSteps p') = true.
Proof.
  intros Hfind. rewrite handleMessage_step_complete. unfold handleStepComplete.
  rewrite Hfind. simpl. exists (add_completed stepId p).
  unfold findParticipantByWs, JsMap.values in *. simpl.
  split.
  - induction (participants st) as [|[k q] m IH]; simpl in *; [discriminate|].
    destruct (Nat.eqb (p_ws q) ws) eqn:E; simpl.
    + inversion Hfind; subst q. simpl. rewrite E. reflexivity.
    + rewrite E. apply IH. exact Hfind.
  - unfold add_completed, JsSet.add. simpl.
    destruct (JsSet.has stepId (p_completedSteps p)) eqn:E; [exact E|].
    unfold JsSet.has. rewrite existsb_app. simpl. rewrite Z.eqb_refl.
    rewrite orb_true_r. reflexivity.
Qed.

(** An entry bound to the sending socket that has [stepId] already is in
    the registry unchanged afterwards, whether or not it is the entry the
    server picks for that socket. *)
Lemma step_complete_keeps_entry_with_step wss newId ws (stepId : Z) st id p :
  In (id, p) (participants st) ->
  JsSet.has stepId (p_completedSteps p) = true ->
  In (id, p)
     (participants (fst (handleMessage wss newId ws (msg_step_complete stepId) st))).
Proof.
  intros Hin Hhas. rewrite handleMessage_step_complete. unfold handleStepComplete.
  destruct (findParticipantByWs ws st); [|exact Hin]. cbn [fst participants with_participants].
  cbn [d_stepId msg_step_complete].
  induction (participants st) as [|[k q] m IH]; [destruct Hin|].
  cbn [mutate_first]. destruct Hin as [Heq|Hin].
  - inversion Heq; subst k q. destruct (Nat.eqb (p_ws p) ws).
    + left. rewrite (add_completed_present _ _ Hhas). reflexivity.
    + left. reflexivity.
  - destruct (Nat.eqb (p_ws q) ws); right; [exact Hin | apply IH; exact Hin].
Qed.

(** C7: a [step_complete] from a socket no participant is bound to changes
    nothing in the state (participants, their sets, [currentStep]) and
    makes no [send] call at all: no broadcast, no error message. *)
Theorem step_complete_unjoined_is_ignored :
  forall wss newId ws (stepId : Z) st,
    (forall id p, In (id, p) (participants st) -> p_ws p <> ws) ->
    handleMessage wss newId ws (msg_step_complete stepId) st = (st, []).
Proof.
  intros wss newId ws stepId st H.
  rewrite handleMessage_step_complete. unfold handleStepComplete.
  rewrite (findParticipantByWs_none ws st H). reflexivity.
Qed.

(** *** Join *)

(** C3, as the code has it: the sender of a [join] gets the unicast
    [joined] first, and [participant_joined], carrying the new id, the
    name and an empty list of completed steps, goes to every open socket
    of [wss.clients], the sender among them when it is open. *)
Theorem join_is_announced_to_every_open_socket :
  forall wss newId ws (name : string) st,
    let out := snd (handleMessage wss newId ws (msg_join name) st) in
    let announce := participant_joined (mkView newId name []) in
    hd_error out = Some (ws, joined newId (currentStep st))
    /\ (forall c, In (c, announce) out <-> In (c, OPEN) wss)
    /\ (In (ws, OPEN) wss -> In (ws, announce) out).
Proof.
  intros wss newId ws name st out announce. subst out announce.
  rewrite handleMessage_join. unfold handleJoin. cbn [snd fst d_name msg_join].
  assert (Hiff : forall c,
             In (c, participant_joined (mkView newId name []))
                ([(ws, joined newId (currentStep st))]
                   ++ broadcast wss (participant_joined (mkView newId name [])) None)
             <-> In (c, OPEN) wss).
  { intros c. rewrite in_app_iff, broadcast_all_iff.
    split; [intros [[H|[]]|H]; [discriminate H | exact H] | intros H; right; exact H]. }
  split; [reflexivity|]. split; [exact Hiff|].
  intros Hopen. apply Hiff. exact Hopen.
Qed.

(** The sender of a [join] is sent [participant_joined] too: with sockets 0
    and 1 open, a [join] from socket 0 makes three [send] calls, two of
    them to socket 0. *)
Lemma join_sender_gets_participant_joined :
  snd (run [connection 0%nat; connection 1%nat;
            message 0%nat (Some (msg_join "Alice")) "a1"] boot)
  = [(0%nat, joined "a1" 0);
     (0%nat, participant_joined (mkView "a1" "Alice" []));
     (1%nat, participant_joined (mkView "a1" "Alice" []))].
Proof. reflexivity. Qed.

Lemma step_complete_is_idempotent_witness :
  let st := state alice_joined in
  let p := mkParticipant "a1" "Alice" [2] 0%nat in
  (findParticipantByWs 0%nat st = Some p
   /\ JsSet.has 2 (p_completedSteps p) = true)
  /\ fst (handleMessage (wss_clients alice_joined) "r9" 0%nat
                        (msg_step_complete 2) st) = st
  /\ snd (handleMessage (wss_clients alice_joined) "r9" 0%nat
                        (msg_step_complete 2) st)
     = broadcast (wss_clients alice_joined) (step_completed (p_id p) 2) None.
Proof.
  split; [split; reflexivity|].
  apply (step_complete_is_idempotent (wss_clients alice_joined) "r9" 0%nat 2
           (state alice_joined) (mkParticipant "a1" "Alice" [2] 0%nat));
    reflexivity.
Defined.

Lemma step_complete_unjoined_is_ignored_witness :
  handleMessage (wss_clients alice_joined) "r9" 1%nat (msg_step_complete 2)
                (state alice_joined)
  = (state alice_joined, []).
Proof.
  apply (step_complete_unjoined_is_ignored (wss_clients alice_joined) "r9"
           1%nat 2 (state alice_joined)).
  intros id p Hin. simpl in Hin. destruct Hin as [Heq|[]].
  inversion Heq. simpl. discriminate.
Defined.

End ServerFacts.

(** * One participant per socket *)

Section MapFacts.

Context {V B : Type} (g : string * V -> B).

Lemma in_map_set (k : string) (v : V) (m : list (string * V)) (y : B) :
  In y (List.map g (JsMap.set k v m)) -> In y (List.map g m) \/ y = g (k, v).
Proof.
  induction m as [|[k' v'] m IH]; simpl.
  - intros [H|[]]. right. symmetry. exact H.
  - destruct (String.eqb k' k); simpl.
    + intros [H|H]; [right; symmetry; exact H | left; right; exact H].
    + intros [H|H]; [left; left; exact H|].
      destruct (IH H) as [H'|H']; [left; right; exact H' | right; exact H'].
Qed.

Lemma in_map_delete (k : string) (m : list (string * V)) (y : B) :
  In y (List.map g (JsMap.delete k m)) -> In y (List.map g m).
Proof.
  induction m as [|[k' v'] m IH]; simpl; [tauto|].
  destruct (String.eqb k' k); simpl.
  - intros H. right. exact H.
  - intros [H|H]; [left; exact H | right; apply IH; exact H].
Qed.

Lemma NoDup_map_delete (k : string) (m : list (string * V)) :
  NoDup (List.map g m) -> NoDup (List.map g (JsMap.delete k m)).
Proof.
  induction m as [|[k' v'] m IH]; simpl; [auto|].
  intros H. inversion H as [|x l Hnotin Hnd]; subst.
  destruct (String.eqb k' k); simpl; [exact Hnd|].
  constructor; [|apply IH; exact Hnd].
  intros Hin. apply Hnotin. apply (in_map_delete k). exact Hin.
Qed.

(** Setting a key to a value whose image is new keeps images distinct,
    whether the key was there or not. *)
Lemma NoDup_map_set_fresh (k : string) (v : V) (m : list (string * V)) :
  NoDup (List.map g m) -> ~ In (g (k, v)) (List.map g m) ->
  NoDup (List.map g (JsMap.set k v m)).
Proof.
  induction m as [|[k' v'] m IH]; simpl.
  - intros _ _. constructor; [intros [] | constructor].
  - intros H Hfresh. inversion H as [|x l Hnotin Hnd]; subst.
    destruct (String.eqb k' k); simpl.
    + constructor; [|exact Hnd]. intros Hin. apply Hfresh. right. exact Hin.
    + constructor.
      * intros Hin. destruct (in_map_set k v m _ Hin) as [H'|H'].
        -- apply Hnotin. exact H'.
        -- apply Hfresh. left. exact H'.
      * apply IH; [exact Hnd|]. intros Hin. apply Hfresh. right. exact Hin.
Qed.

End MapFacts.

Section KeyFacts.

Context {V : Type}.

(** The keys of a map stay distinct under [set]. *)
Lemma NoDup_keys_set (k : string) (v : V) (m : list (string * V)) :
  NoDup (JsMap.keys m) -> NoDup (JsMap.keys (JsMap.set k v m)).
Proof.
  unfold JsMap.keys.
  induction m as [|[k' v'] m IH]; simpl.
  - intros _. constructor; [intros [] | constructor].
  - intros H. inversion H as [|x l Hnotin Hnd]; subst.
    destruct (String.eqb_spec k' k) as [Heq|Hne]; simpl.
    + subst k'. constructor; assumption.
    + constructor; [|apply IH; exact Hnd].
      intros Hin. destruct (in_map_set fst k v m _ Hin) as [H'|H'].
      * apply Hnotin. exact H'.
      * apply Hne. exact H'.
Qed.

Lemma NoDup_keys_delete (k : string) (m : list (string * V)) :
  NoDup (JsMap.keys m) -> NoDup (JsMap.keys (JsMap.delete k m)).
Proof. apply NoDup_map_delete. Qed.

End KeyFacts.

Section RegistryFacts.

Import Server.

Lemma bound_sockets_as_map (m : list (string * participant)) :
  List.map p_ws (JsMap.values m) = List.map (fun e => p_ws (snd e)) m.
Proof. unfold JsMap.values. apply map_map. Qed.

Lemma mutate_first_keys ws f (m : list (string * participant)) :
  JsMap.keys (mutate_first ws f m) = JsMap.keys m.
Proof.
  unfold JsMap.keys. induction m as [|[k p] m IH]; simpl; [reflexivity|].
  destruct (Nat.eqb (p_ws p) ws); simpl; [reflexivity|].
  rewrite IH. reflexivity.
Qed.

Lemma mutate_first_sockets ws f (m : list (string * participant)) :
  (forall p, p_ws (f p) = p_ws p) ->
  List.map p_ws (JsMap.values (mutate_first ws f m)) = List.map p_ws (JsMap.values m).
Proof.
  intros Hf. unfold JsMap.values.
  induction m as [|[k p] m IH]; simpl; [reflexivity|].
  destruct (Nat.eqb (p_ws p) ws); simpl; [rewrite Hf; reflexivity|].
  rewrite IH. reflexivity.
Qed.

Lemma unbound_not_in ws st :
  findParticipantByWs ws st = None -> ~ In ws (bound_sockets st).
Proof.
  unfold findParticipantByWs, bound_sockets. intros Hnone Hin.
  apply in_map_iff in Hin. destruct Hin as [p [Hws Hp]].
  pose proof (find_none _ _ Hnone p Hp) as Hf. simpl in Hf.
  rewrite Hws, Nat.eqb_refl in Hf. discriminate.
Qed.

Lemma handleJoin_ok wss newId ws d st :
  registry_ok st -> findParticipantByWs ws st = None ->
  registry_ok (fst (handleJoin wss newId ws d st)).
Proof.
  intros [Hs Hk] Hnone. unfold registry_ok, bound_sockets, handleJoin. simpl.
  split.
  - rewrite bound_sockets_as_map. apply NoDup_map_set_fresh.
    + rewrite <- bound_sockets_as_map. exact Hs.
    + simpl. rewrite <- bound_sockets_as_map. apply unbound_not_in. exact Hnone.
  - apply NoDup_keys_set. exact Hk.
Qed.

Lemma handleStepComplete_ok wss ws d st :
  registry_ok st -> registry_ok (fst (handleStepComplete wss ws d st)).
Proof.
  intros [Hs Hk]. unfold handleStepComplete.
  destruct (findParticipantByWs ws st); simpl; [|split; assumption].
  unfold registry_ok, bound_sockets. simpl. split.
  - rewrite mutate_first_sockets; [exact Hs | reflexivity].
  - rewrite mutate_first_keys. exact Hk.
Qed.

Lemma onClose_ok wss ws st :
  registry_ok st -> registry_ok (fst (onClose wss ws st)).
Proof.
  intros [Hs Hk]. unfold onClose.
  destruct (find _ (participants st)) as [[id p]|]; simpl; [|split; assumption].
  unfold registry_ok, bound_sockets. simpl. split.
  - rewrite bound_sockets_as_map. apply NoDup_map_delete.
    rewrite <- bound_sockets_as_map. exact Hs.
  - apply NoDup_keys_delete. exact Hk.
Qed.

Lemma step_server_ok ev (sv : server) :
  registry_ok (state sv) -> joins_unbound ev sv = true ->
  registry_ok (state (fst (step_server ev sv))).
Proof.
  intros Hok Hj. destruct ev as [ws | ws [d|] newId | ws]; simpl.
  - exact Hok.
  - simpl in Hj. unfold handleMessage.
    destruct (String.eqb (d_type d) "join").
    + destruct (findParticipantByWs ws (state sv)) eqn:E; [discriminate|].
      pose proof (handleJoin_ok (wss_clients sv) newId ws d _ Hok E) as H.
      destruct (handleJoin _ _ _ _ _). exact H.
    + destruct (String.eqb (d_type d) "step_complete").
      * pose proof (handleStepComplete_ok (wss_clients sv) ws d _ Hok) as H.
        destruct (handleStepComplete _ _ _ _). exact H.
      * destruct (String.eqb (d_type d) "step_change"); [exact Hok|].
        destruct (String.eqb (d_type d) "request_state"); exact Hok.
  - exact Hok.
  - pose proof (onClose_ok (drop_client ws (wss_clients sv)) ws _ Hok) as H.
    destruct (onClose _ _ _). exact H.
Qed.

Lemma run_cons_fst ev evs (sv : server) :
  fst (run (ev :: evs) sv) = fst (run evs (fst (step_server ev sv))).
Proof.
  simpl. destruct (step_server ev sv) as [sv' out]. simpl.
  destruct (run evs sv'). reflexivity.
Qed.

Lemma run_ok evs : forall (sv : server),
  registry_ok (state sv) -> joins_once evs sv = true ->
  registry_ok (state (fst (run evs sv))).
Proof.
  induction evs as [|ev evs IH]; intros sv Hok Hj; [exact Hok|].
  simpl in Hj. apply andb_prop in Hj. destruct Hj as [H1 H2].
  rewrite run_cons_fst. apply IH; [apply step_server_ok; assumption | exact H2].
Qed.

Lemma at_most_one_of_NoDup {A : Type} (f : A -> nat) (a : nat) (l : list A) :
  NoDup (List.map f l) ->
  (List.length (List.filter (fun x => Nat.eqb (f x) a) l) <= 1)%nat.
Proof.
  induction l as [|x l IH]; simpl; [lia|].
  intros H. inversion H as [|y l' Hnotin Hnd]; subst.
  destruct (Nat.eqb_spec (f x) a) as [Heq|Hne]; [|apply IH; exact Hnd].
  simpl. assert (Hnil : List.filter (fun x0 => Nat.eqb (f x0) a) l = []).
  { clear IH H Hnd. induction l as [|z l IHl]; simpl; [reflexivity|].
    destruct (Nat.eqb_spec (f z) a) as [Hz|Hz].
    - exfalso. apply Hnotin. left. congruence.
    - apply IHl. intros Hin. apply Hnotin. right. exact Hin. }
  rewrite Hnil. simpl. lia.
Qed.

(** In a run from the empty registry in which no socket sends [join] while
    it has a participant, every socket has at most one entry and no two
    entries share a key.  The server does not check the condition itself:
    [handleJoin] adds an entry whatever the socket is bound to. *)
Theorem one_participant_per_socket_when_joining_once :
  forall evs,
    joins_once evs boot = true ->
    let st := state (fst (run evs boot)) in
    (forall ws, (List.length (bound_to ws st) <= 1)%nat)
    /\ NoDup (bound_sockets st)
    /\ NoDup (JsMap.keys (participants st)).
Proof.
  intros evs Hj st.
  assert (Hok : registry_ok st).
  { apply run_ok; [|exact Hj]. split; constructor. }
  destruct Hok as [Hs Hk]. split; [|split; assumption].
  intros ws. unfold bound_to. apply at_most_one_of_NoDup. exact Hs.
Qed.

Lemma one_participant_per_socket_witness :
  joins_once busy_session boot = true
  /\ (forall ws, (List.length (bound_to ws (state (fst (run busy_session boot)))) <= 1)%nat)
  /\ NoDup (bound_sockets (state (fst (run busy_session boot))))
  /\ NoDup (JsMap.keys (participants (state (fst (run busy_session boot))))).
Proof.
  split; [reflexivity|].
  apply (one_participant_per_socket_when_joining_once busy_session).
  reflexivity.
Defined.

(** Two [join]s on one socket leave two entries bound to it. *)
Lemma double_join_binds_two_participants :
  bound_to 0%nat (state (fst (run double_join boot)))
  = [mkParticipant "a1" "Alice" [] 0%nat; mkParticipant "a2" "Alice" [] 0%nat].
Proof. reflexivity. Qed.

(** When that socket closes, the listener deletes the first entry and
    stops: the second stays in the registry, bound to a closed socket. *)
Lemma close_after_double_join_leaves_an_entry :
  participants (state (fst (run (double_join ++ [close 0%nat]) boot)))
  = [("a2", mkParticipant "a2" "Alice" [] 0%nat)].
Proof. reflexivity. Qed.

(** Ids are what [generateId] draws: when it draws a live id again, the
    entry under that id is replaced. *)
Lemma repeated_id_replaces_entry :
  participants
    (state (fst (run [connection 0%nat; connection 1%nat;
                      message 0%nat (Some (msg_join "Alice")) "a1";
                      message 1%nat (Some (msg_join "Bob")) "a1"] boot)))
  = [("a1", mkParticipant "a1" "Bob" [] 1%nat)].
Proof. reflexivity. Qed.

End RegistryFacts.

(** * Properties of the client *)

Section ClientFacts.

Import Client.

Implicit Types (a : WorkshopApp) (now : Z) (ev : event).

(** *** Runs *)

Lemma run_app (evs1 evs2 : list event) a :
  run (evs1 ++ evs2) a
  = (fst (run evs2 (fst (run evs1 a))),
     snd (run evs1 a) ++ snd (run evs2 (fst (run evs1 a)))).
Proof.
  revert a. induction evs1 as [|ev evs1 IH]; intros a; simpl.
  - destruct (run evs2 a); reflexivity.
  - destruct (step_client ev a) as [a1 e1]. rewrite IH.
    destruct (run evs1 a1) as [a2 e2]. simpl.
    rewrite app_assoc. reflexivity.
Qed.

Lemma reconnect_delays_app (es1 es2 : list effect) :
  reconnect_delays (es1 ++ es2) = reconnect_delays es1 ++ reconnect_delays es2.
Proof.
  induction es1 as [|e es1 IH]; simpl; [reflexivity|].
  destruct e; simpl; rewrite ?IH; reflexivity.
Qed.

(** *** Reconnect schedule *)

(** [scheduleReconnect] on its own follows the backoff formula and counts
    the attempt. *)
Lemma scheduleReconnect_delay a :
  reconnect_delays (snd (scheduleReconnect a))
  = [Z.min (1000 * 2 ^ reconnectAttempts a) 30000]
  /\ reconnectAttempts (fst (scheduleReconnect a)) = reconnectAttempts a + 1.
Proof.
  unfold scheduleReconnect. simpl. split; [|reflexivity].
  rewrite reconnect_delays_app. destruct (reconnectTimeout a); reflexivity.
Qed.

(** One failed attempt: [setupWebSocket] puts the counter back to zero, so
    the close that follows schedules the base delay. *)
Lemma failed_attempt_delay a :
  ws_is CONNECTING a = false ->
  reconnect_delays (snd (run failed_attempt a)) = [1000]
  /\ ws_is CONNECTING (fst (run failed_attempt a)) = false.
Proof.
  intros Hc. unfold failed_attempt. simpl.
  unfold setupWebSocket. rewrite Hc. simpl.
  unfold onclose, stopHeartbeat. simpl.
  destruct (pingInterval a); simpl; unfold scheduleReconnect; simpl;
    destruct (reconnectTimeout a); simpl; split; reflexivity.
Qed.

Lemma failures_delays (n : nat) : forall a,
  ws_is CONNECTING a = false ->
  reconnect_delays (snd (run (failures n) a)) = repeat 1000 n
  /\ ws_is CONNECTING (fst (run (failures n) a)) = false.
Proof.
  induction n as [|n IH]; intros a Hc; [split; [reflexivity | exact Hc]|].
  change (failures (S n)) with (failed_attempt ++ failures n).
  rewrite run_app. cbn [fst snd]. rewrite reconnect_delays_app.
  destruct (failed_attempt_delay a Hc) as [Hd Hc'].
  destruct (IH _ Hc') as [Hd' Hc''].
  rewrite Hd, Hd'. split; [reflexivity | exact Hc''].
Qed.

(** C2, as the code has it: for a fresh client whose every connection
    attempt ends in a close without an open, each scheduled reconnect delay
    is 1000 ms: the sequence is 1000, 1000, 1000, ... and never reaches
    2000. *)
Theorem reconnect_delays_stay_at_base :
  forall (loaded : list step) (urlMode : string) (n : nat),
    reconnect_delays (snd (run (failures n) (init loaded urlMode)))
    = repeat 1000 n.
Proof.
  intros loaded urlMode n.
  apply (failures_delays n (init loaded urlMode)). reflexivity.
Qed.

(** *** Heartbeat *)

Lemma onclose_schedules a :
  exists delay, In (setTimeout_setupWebSocket delay) (snd (onclose a)).
Proof.
  unfold onclose. cbv zeta.
  destruct (stopHeartbeat a) as [a1 e2].
  unfold scheduleReconnect. cbv zeta. cbn [snd].
  exists (Z.min (1000 * 2 ^ reconnectAttempts a1) 30000).
  repeat (apply in_or_app; right). right. left. reflexivity.
Qed.

(** One tick, past the deadline: on an open socket, when more than
    10000 ms have passed since the last pong was noted, the heartbeat sends
    its ping and closes the socket; the close callback that follows
    schedules the reconnect. *)
Theorem heartbeat_closes_silent_connection :
  forall a now,
    ws a = Some OPEN ->
    lastPong a + 10000 < now ->
    heartbeat now a = (set_ws a (Some CLOSING), [ws_send msg_ping; ws_close])
    /\ exists delay,
         In (setTimeout_setupWebSocket delay)
            (snd (step_client ev_close (fst (heartbeat now a)))).
Proof.
  intros a now Hopen Hlate. split.
  - unfold heartbeat, ws_is. rewrite Hopen. simpl.
    destruct (Z.gtb_spec (now - lastPong a) 10000) as [_|Hle]; [reflexivity | lia].
  - unfold step_client. apply onclose_schedules.
Qed.

(** Within the deadline the tick only pings. *)
Lemma heartbeat_keeps_live_connection a now :
  ws a = Some OPEN -> now <= lastPong a + 10000 ->
  heartbeat now a = (a, [ws_send msg_ping]).
Proof.
  intros Hopen Hin. unfold heartbeat, ws_is. rewrite Hopen. simpl.
  destruct (Z.gtb_spec (now - lastPong a) 10000) as [Hgt|_]; [lia | reflexivity].
Qed.

(** With ticks every 5000 ms from the open at [t0] and no pong in between,
    the first two ticks ping and the third closes the socket: a silent
    connection is closed 15000 ms after it opened. *)
Lemma silent_connection_closed_at_third_tick a (t0 : Z) :
  let opened := fst (step_client (ev_open t0) a) in
  let ticks := [ev_heartbeat (t0 + 5000); ev_heartbeat (t0 + 10000)] in
  ws (fst (run ticks opened)) = Some OPEN
  /\ ws (fst (run (ticks ++ [ev_heartbeat (t0 + 15000)]) opened)) = Some CLOSING.
Proof.
  assert (Hopen : ws (fst (step_client (ev_open t0) a)) = Some OPEN
                  /\ lastPong (fst (step_client (ev_open t0) a)) = t0).
  { simpl. unfold onopen. simpl.
    destruct (String.eqb (mode a) "participant" && truthy (participantName a)
              && negb (truthy (participantId a)));
      [|destruct (String.eqb (mode a) "master")];
      simpl; unfold startHeartbeat, stopHeartbeat; simpl;
      destruct (pingInterval a); simpl; split; reflexivity. }
  destruct Hopen as [Hws Hlp].
  set (opened := fst (step_client (ev_open t0) a)) in *.
  simpl. rewrite (heartbeat_keeps_live_connection opened (t0 + 5000) Hws) by lia.
  rewrite (heartbeat_keeps_live_connection opened (t0 + 10000) Hws) by lia.
  simpl. split; [exact Hws|].
  unfold heartbeat, ws_is. rewrite Hws, Hlp. simpl.
  destruct (Z.gtb_spec (t0 + 15000 - t0) 10000) as [_|Hle]; [reflexivity | lia].
Qed.

(** *** Participant view *)

Lemma has_false_not_in (x : Z) (l : list Z) :
  JsSet.has x l = false -> ~ In x l.
Proof.
  unfold JsSet.has. intros H Hin.
  assert (existsb (Z.eqb x) l = true) as Ht.
  { apply existsb_exists. exists x. split; [exact Hin | apply Z.eqb_refl]. }
  rewrite H in Ht. discriminate.
Qed.

Lemma add_NoDup (x : Z) (l : list Z) : NoDup l -> NoDup (JsSet.add x l).
Proof.
  intros Hnd. unfold JsSet.add. destruct (JsSet.has x l) eqn:E; [exact Hnd|].
  apply NoDup_app; [exact Hnd | constructor; [intros [] | constructor] |].
  intros y Hy [Hx|[]]. subst y. exact (has_false_not_in x l E Hy).
Qed.

Lemma add_incl (x : Z) (l l' : list Z) :
  incl l l' -> In x l' -> incl (JsSet.add x l) l'.
Proof.
  intros Hincl Hx. unfold JsSet.add. destruct (JsSet.has x l); [exact Hincl|].
  apply incl_app; [exact Hincl|]. intros y [Hy|[]]. subst y. exact Hx.
Qed.

Lemma steps_at_in a (i : Z) (s : step) :
  steps_at a i = Some s -> In (s_id s) (List.map s_id (steps a)).
Proof.
  unfold steps_at. destruct (i <? 0); [discriminate|].
  intros H. apply in_map. apply (nth_error_In _ _ H).
Qed.

(** Crunches a callback down to its cases. *)
Ltac callback_cases :=
  try match goal with d : server_msg |- _ => destruct d; cbn end;
  repeat match goal with
         | |- context [if ?b then _ else _] => destruct b; cbn
         | |- context [match ?o with Some _ => _ | None => _ end] =>
             destruct o; cbn
         end;
  try reflexivity.

Lemma step_client_steps ev a : steps (fst (step_client ev a)) = steps a.
Proof.
  destruct ev; cbn;
    unfold setupWebSocket, onopen, onmessage, handleWebSocketMessage, onclose,
      onerror, heartbeat, joinWorkshop, completeCurrentStep, previousStepMaster,
      nextStepMaster, rejoinWorkshop, startHeartbeat, stopHeartbeat,
      scheduleReconnect, ws_is; cbn;
    callback_cases.
Qed.

Lemma step_client_completedSteps ev a :
  completedSteps (fst (step_client ev a)) = completedSteps a
  \/ (ev = ev_completeCurrentStep
      /\ exists s, steps_at a (currentStepIndex a) = Some s
                   /\ completedSteps (fst (step_client ev a))
                      = JsSet.add (s_id s) (completedSteps a)).
Proof.
  destruct ev;
    try (left; cbn;
         unfold setupWebSocket, onopen, onmessage, handleWebSocketMessage, onclose,
           onerror, heartbeat, joinWorkshop, previousStepMaster,
           nextStepMaster, rejoinWorkshop, startHeartbeat, stopHeartbeat,
           scheduleReconnect, ws_is; cbn;
         callback_cases; fail).
  cbn. unfold completeCurrentStep.
  destruct (negb (String.eqb (mode a) "participant")
            || negb (truthy (participantId a)) || (steps_length a =? 0));
    [left; reflexivity|].
  destruct (steps_at a (currentStepIndex a)) as [s|] eqn:E; [|left; reflexivity].
  destruct (JsSet.has (s_id s) (completedSteps a)); [left; reflexivity|].
  right. split; [reflexivity|]. exists s. split; reflexivity.
Qed.

Lemma step_client_within ev a :
  completed_within_steps a -> completed_within_steps (fst (step_client ev a)).
Proof.
  intros [Hnd Hincl]. unfold completed_within_steps.
  rewrite step_client_steps.
  destruct (step_client_completedSteps ev a) as [Heq|[_ [s [Hs Heq]]]];
    rewrite Heq.
  - split; assumption.
  - split; [apply add_NoDup; exact Hnd|].
    apply add_incl; [exact Hincl | exact (steps_at_in a _ s Hs)].
Qed.

Lemma run_cons_fst_client ev (evs : list event) a :
  fst (run (ev :: evs) a) = fst (run evs (fst (step_client ev a))).
Proof.
  simpl. destruct (step_client ev a) as [a1 e1]. simpl.
  destruct (run evs a1). reflexivity.
Qed.

Lemma run_within (evs : list event) : forall a,
  completed_within_steps a -> completed_within_steps (fst (run evs a)).
Proof.
  induction evs as [|ev evs IH]; intros a H; [exact H|].
  rewrite run_cons_fst_client. apply IH. apply step_client_within. exact H.
Qed.

(** In every state a client can reach, no more steps are completed than
    there are steps. *)
Lemma completed_at_most_total (loaded : list step) (urlMode : string)
      (evs : list event) :
  let a := fst (run evs (init loaded urlMode)) in
  0 <= JsSet.size (completedSteps a) <= steps_length a.
Proof.
  intros a.
  assert (H : completed_within_steps a).
  { apply run_within. split; [constructor | intros x []]. }
  destruct H as [Hnd Hincl]. unfold JsSet.size, steps_length.
  pose proof (NoDup_incl_length Hnd Hincl) as Hlen.
  rewrite length_map in Hlen. lia.
Qed.

(** *** Worked examples *)

(** Seven failed attempts in a row: seven times the base delay. *)
Example seven_failures (loaded : list step) :
  reconnect_delays (snd (run (failures 7) (init loaded "master")))
  = [1000; 1000; 1000; 1000; 1000; 1000; 1000].
Proof. reflexivity. Qed.

(** The formula of [scheduleReconnect] does grow with the counter: seven
    calls in a row, with no [setupWebSocket] in between to reset it, give
    the schedule of the comment in the source. *)
Example backoff_on_the_counter_alone :
  reconnect_delays
    (snd (run (repeat ev_close 7) (fst (run [ev_setup] (init [] "master")))))
  = [1000; 2000; 4000; 8000; 16000; 30000; 30000].
Proof. reflexivity. Qed.

(** Completing both steps of a two-step workshop gives "2 of 2"; pressing
    the button again changes nothing. *)
Example progress_two_of_two :
  let a := fst (run [ev_message 0 (joined "a1" 0); ev_completeCurrentStep;
                     ev_message 0 (step_changed 1); ev_completeCurrentStep;
                     ev_completeCurrentStep]
                    (opened_at 0)) in
  completedSteps a = [1; 2]
  /\ renderParticipant a = Some (mkProgress 2 2).
Proof. split; reflexivity. Qed.

End ClientFacts.

(** * More on the maps *)

Section MapLookup.

Context {V : Type}.

Implicit Types (k : string) (v : V) (m : list (string * V)).

Lemma get_set_same k v m : JsMap.get k (JsMap.set k v m) = Some v.
Proof.
  induction m as [|[k' v'] m IH]; simpl.
  - rewrite String.eqb_refl. reflexivity.
  - destruct (String.eqb k' k) eqn:E; simpl.
    + rewrite String.eqb_refl. reflexivity.
    + rewrite E. exact IH.
Qed.

Lemma get_set_other k k' v m :
  k' <> k -> JsMap.get k' (JsMap.set k v m) = JsMap.get k' m.
Proof.
  intros Hne. induction m as [|[k0 v0] m IH]; simpl.
  - destruct (String.eqb_spec k k'); [congruence | reflexivity].
  - destruct (String.eqb_spec k0 k) as [Heq|Hk]; simpl.
    + subst k0. destruct (String.eqb_spec k k'); [congruence|].
      reflexivity.
    + destruct (String.eqb k0 k'); [reflexivity | exact IH].
Qed.

Lemma length_set k v m :
  List.length (JsMap.set k v m)
  = (List.length m + match JsMap.get k m with Some _ => 0 | None => 1 end)%nat.
Proof.
  induction m as [|[k' v'] m IH]; simpl; [reflexivity|].
  destruct (String.eqb k' k); simpl; [lia|]. rewrite IH. lia.
Qed.

Lemma get_none_keys k m : JsMap.get k m = None <-> ~ In k (JsMap.keys m).
Proof.
  unfold JsMap.keys. induction m as [|[k' v'] m IH]; simpl; [tauto|].
  destruct (String.eqb_spec k' k) as [Heq|Hne].
  - split; [discriminate | intros H; exfalso; apply H; left; exact Heq].
  - rewrite IH. tauto.
Qed.

Lemma set_absent k v m : JsMap.get k m = None -> JsMap.set k v m = m ++ [(k, v)].
Proof.
  induction m as [|[k' v'] m IH]; simpl; [reflexivity|].
  destruct (String.eqb k' k); [discriminate|].
  intros H. rewrite (IH H). reflexivity.
Qed.

Lemma delete_appended k v m :
  JsMap.get k m = None -> JsMap.delete k (m ++ [(k, v)]) = m.
Proof.
  induction m as [|[k' v'] m IH]; simpl.
  - rewrite String.eqb_refl. reflexivity.
  - destruct (String.eqb k' k); [discriminate|].
    intros H. rewrite (IH H). reflexivity.
Qed.

Lemma get_delete_same k m :
  NoDup (JsMap.keys m) -> JsMap.get k (JsMap.delete k m) = None.
Proof.
  unfold JsMap.keys. induction m as [|[k' v'] m IH]; simpl; [reflexivity|].
  intros H. inversion H as [|x l Hnotin Hnd]; subst.
  destruct (String.eqb_spec k' k) as [Heq|Hne]; simpl.
  - subst k'. apply get_none_keys. exact Hnotin.
  - destruct (String.eqb_spec k' k); [congruence|]. apply IH. exact Hnd.
Qed.

Lemma get_delete_other k k' m :
  k' <> k -> JsMap.get k' (JsMap.delete k m) = JsMap.get k' m.
Proof.
  intros Hne. induction m as [|[k0 v0] m IH]; simpl; [reflexivity|].
  destruct (String.eqb_spec k0 k) as [Heq|Hk]; simpl.
  - subst k0. destruct (String.eqb_spec k k'); [congruence | reflexivity].
  - destruct (String.eqb k0 k'); [reflexivity | exact IH].
Qed.

Lemma length_delete k v m :
  In (k, v) m -> (List.length (JsMap.delete k m) + 1 = List.length m)%nat.
Proof.
  induction m as [|[k' v'] m IH]; simpl; [intros []|].
  destruct (String.eqb_spec k' k) as [Heq|Hne]; [lia|].
  intros [H|H]; [inversion H; congruence|]. simpl. rewrite <- (IH H). lia.
Qed.

Lemma in_delete_other k k' v m :
  k' <> k -> In (k', v) m -> In (k', v) (JsMap.delete k m).
Proof.
  intros Hne. induction m as [|[k0 v0] m IH]; simpl; [tauto|].
  destruct (String.eqb_spec k0 k) as [Heq|Hk].
  - intros [H|H]; [inversion H; congruence | exact H].
  - intros [H|H]; [left; exact H | right; apply IH; exact H].
Qed.

End MapLookup.

(** * More on the server *)

Section ServerMore.

Import Server.

Implicit Types (wss : clients) (ws c : socket_id) (st : workshopState)
         (newId : string) (d : data).

(** *** Messages that match no case *)

(** A payload that does not parse, or whose [type] is none of the four the
    [switch] knows, changes nothing and is answered by nothing. *)
Theorem unknown_message_is_dropped :
  forall wss newId ws d st,
    d_type d <> "join" -> d_type d <> "step_complete" ->
    d_type d <> "step_change" -> d_type d <> "request_state" ->
    onMessage wss newId ws (Some d) st = (st, [])
    /\ onMessage wss newId ws None st = (st, []).
Proof.
  intros wss newId ws d st H1 H2 H3 H4. split; [|reflexivity].
  unfold onMessage, handleMessage.
  destruct (String.eqb_spec (d_type d) "join"); [contradiction|].
  destruct (String.eqb_spec (d_type d) "step_complete"); [contradiction|].
  destruct (String.eqb_spec (d_type d) "step_change"); [contradiction|].
  destruct (String.eqb_spec (d_type d) "request_state"); [contradiction|].
  reflexivity.
Qed.

Lemma unknown_message_is_dropped_witness :
  onMessage (wss_clients alice_joined) "r9" 1%nat
            (Some (mkData "hello" "Bob" 7 7)) (state alice_joined)
  = (state alice_joined, [])
  /\ onMessage (wss_clients alice_joined) "r9" 1%nat None (state alice_joined)
     = (state alice_joined, []).
Proof.
  apply (unknown_message_is_dropped (wss_clients alice_joined) "r9" 1%nat
           (mkData "hello" "Bob" 7 7) (state alice_joined));
    simpl; discriminate.
Defined.

(** *** Who is sent what *)

(** Whatever the message, every [send] it causes goes to the sender or to
    a socket that is open in [wss.clients]. *)
Theorem sends_go_to_sender_or_open_sockets :
  forall wss newId ws d st,
    Forall (fun m => fst m = ws \/ In (fst m, OPEN) wss)
           (snd (handleMessage wss newId ws d st)).
Proof.
  intros wss newId ws d st. apply Forall_forall. intros [c msg] Hin. simpl.
  unfold handleMessage, handleJoin, handleStepComplete, handleStepChange,
    sendCurrentState in Hin.
  repeat match type of Hin with
         | context [if ?b then _ else _] => destruct b
         | context [match ?o with Some _ => _ | None => _ end] => destruct o
         end; cbn [snd fst app] in Hin;
    repeat match goal with
           | H : In _ (_ :: _) |- _ => destruct H as [H|H]
           | H : (_, _) = (_, _) |- _ => inversion H; subst; left; reflexivity
           | H : In (_, _) (broadcast _ _ _) |- _ =>
               right; pose proof (broadcast_only_msg _ _ _ _ _ H); subst;
               apply broadcast_only_open in H; exact (proj1 H)
           | H : In _ [] |- _ => destruct H
           end.
Qed.

(** Over any run of the server, no [send] ever carries [pong]. *)
Theorem server_never_sends_pong :
  forall (evs : list event) (sv : server),
    Forall (fun m => snd m <> pong) (snd (run evs sv)).
Proof.
  induction evs as [|ev evs IH]; intros sv; simpl; [constructor|].
  destruct (step_server ev sv) as [sv1 out1] eqn:E1.
  specialize (IH sv1). destruct (run evs sv1) as [sv2 out2]. simpl in *.
  apply Forall_app. split; [|exact IH].
  apply Forall_forall. intros [c msg] Hin Hp. simpl in Hp. subst msg.
  destruct ev as [ws | ws [d|] newId | ws]; simpl in E1.
  - inversion E1; subst. destruct Hin.
  - destruct (handleMessage (wss_clients sv) newId ws d (state sv)) as [st' o] eqn:Eh.
    inversion E1; subst.
    apply (handleMessage_never_pong (wss_clients sv) newId ws d (state sv) c).
    rewrite Eh. exact Hin.
  - inversion E1; subst. destruct Hin.
  - unfold onClose in E1.
    destruct (find _ (participants (state sv))) as [[id p]|];
      inversion E1; subst; [|destruct Hin].
    apply broadcast_only_msg in Hin. discriminate Hin.
Qed.

(** *** The current step *)

Lemma step_server_keeps_currentStep ev (sv : server) :
  is_step_change ev = false ->
  currentStep (state (fst (step_server ev sv))) = currentStep (state sv).
Proof.
  intros Hn. destruct ev as [ws | ws [d|] newId | ws]; simpl; try reflexivity.
  - simpl in Hn. unfold handleMessage. rewrite Hn.
    destruct (String.eqb (d_type d) "join"); [reflexivity|].
    destruct (String.eqb (d_type d) "step_complete").
    + unfold handleStepComplete.
      destruct (findParticipantByWs ws (state sv)); reflexivity.
    + destruct (String.eqb (d_type d) "request_state"); reflexivity.
  - unfold onClose.
    destruct (find _ (participants (state sv))) as [[id p]|]; reflexivity.
Qed.

(** Only a [step_change] message moves the current step: over a run with
    none, joins, completions, state requests, pings, junk and closes leave
    it where it was. *)
Theorem currentStep_moves_only_on_step_change :
  forall (evs : list event) (sv : server),
    existsb is_step_change evs = false ->
    currentStep (state (fst (run evs sv))) = currentStep (state sv).
Proof.
  induction evs as [|ev evs IH]; intros sv Hn; [reflexivity|].
  simpl in Hn. apply orb_false_elim in Hn. destruct Hn as [H1 H2].
  rewrite run_cons_fst, (IH _ H2). apply step_server_keeps_currentStep. exact H1.
Qed.

Lemma currentStep_moves_only_on_step_change_witness :
  existsb is_step_change alice_session = false
  /\ currentStep (state (fst (run alice_session boot))) = currentStep (state boot).
Proof.
  split; [reflexivity|].
  apply (currentStep_moves_only_on_step_change alice_session boot). reflexivity.
Defined.

(** A late joiner and a state request are both told the step the last
    [step_change] set, whoever sent it. *)
Theorem step_change_is_seen_by_later_join_and_snapshot :
  forall wss id0 newId id1 ws0 ws (name : string) (stepIndex : Z) st,
    let st1 := fst (handleMessage wss id0 ws0 (msg_step_change stepIndex) st) in
    hd_error (snd (handleMessage wss newId ws (msg_join name) st1))
    = Some (ws, joined newId stepIndex)
    /\ snd (handleMessage wss id1 ws msg_request_state st1)
       = [(ws, state_update (List.map view_of (JsMap.values (participants st)))
                            stepIndex)].
Proof. intros. subst st1. split; reflexivity. Qed.

(** *** Join *)

(** After a [join] the registry holds the new participant under the new
    id, with the sender's socket, the given name and no completed step;
    every other id maps to what it did; the registry has grown by one
    entry, or kept its size when the id was there already (the old entry is
    replaced); the current step is untouched. *)
Theorem join_registers_participant :
  forall wss newId ws (name : string) st,
    let st' := fst (handleMessage wss newId ws (msg_join name) st) in
    JsMap.get newId (participants st') = Some (mkParticipant newId name [] ws)
    /\ (forall k, k <> newId ->
                  JsMap.get k (participants st') = JsMap.get k (participants st))
    /\ JsMap.size (participants st')
       = JsMap.size (participants st)
         + match JsMap.get newId (participants st) with Some _ => 0 | None => 1 end
    /\ currentStep st' = currentStep st.
Proof.
  intros wss newId ws name st st'. subst st'.
  rewrite handleMessage_join. unfold handleJoin.
  cbn [fst participants with_participants currentStep p_id d_name msg_join].
  split; [apply get_set_same|]. split; [intros k Hk; apply get_set_other; exact Hk|].
  split; [|reflexivity].
  unfold JsMap.size. rewrite length_set.
  destruct (JsMap.get newId (participants st)); lia.
Qed.

(** *** Close *)

Lemma find_entry_value ws (m : list (string * participant)) :
  List.find (fun p => Nat.eqb (p_ws p) ws) (JsMap.values m)
  = option_map snd (List.find (fun e => Nat.eqb (p_ws (snd e)) ws) m).
Proof.
  unfold JsMap.values. induction m as [|[k p] m IH]; simpl; [reflexivity|].
  destruct (Nat.eqb (p_ws p) ws); [reflexivity | exact IH].
Qed.

(** When a socket with a participant closes, the first entry bound to it
    is deleted: its id no longer resolves, every other id resolves as
    before, the registry is one entry smaller, and [participant_left] with
    that id goes to exactly the open sockets. *)
Theorem close_removes_the_participant :
  forall wss ws st p,
    NoDup (JsMap.keys (participants st)) ->
    findParticipantByWs ws st = Some p ->
    exists id,
      In (id, p) (participants st)
      /\ JsMap.get id (participants (fst (onClose wss ws st))) = None
      /\ (forall k, k <> id ->
                    JsMap.get k (participants (fst (onClose wss ws st)))
                    = JsMap.get k (participants st))
      /\ JsMap.size (participants (fst (onClose wss ws st)))
         = JsMap.size (participants st) - 1
      /\ currentStep (fst (onClose wss ws st)) = currentStep st
      /\ (forall c, In (c, participant_left id) (snd (onClose wss ws st))
                    <-> In (c, OPEN) wss).
Proof.
  intros wss ws st p Hnd Hfind. unfold findParticipantByWs in Hfind.
  rewrite find_entry_value in Hfind. unfold onClose.
  destruct (find (fun e => Nat.eqb (p_ws (snd e)) ws) (participants st))
    as [[id q]|] eqn:E; [|discriminate].
  simpl in Hfind. inversion Hfind; subst q. exists id.
  pose proof (find_some _ _ E) as [Hin _].
  cbn [fst snd participants with_participants currentStep].
  split; [exact Hin|]. split; [apply get_delete_same; exact Hnd|].
  split; [intros k Hk; apply get_delete_other; exact Hk|].
  split; [unfold JsMap.size; pose proof (length_delete id p _ Hin); lia|].
  split; [reflexivity|]. intros c. apply broadcast_all_iff.
Qed.

Lemma close_removes_the_participant_witness :
  exists id,
    In (id, mkParticipant "a1" "Alice" [2] 0%nat) (participants (state alice_joined))
    /\ JsMap.get id (participants
                       (fst (onClose [(1%nat, OPEN)] 0%nat (state alice_joined)))) = None
    /\ (forall k, k <> id ->
                  JsMap.get k (participants
                                 (fst (onClose [(1%nat, OPEN)] 0%nat (state alice_joined))))
                  = JsMap.get k (participants (state alice_joined)))
    /\ JsMap.size (participants
                     (fst (onClose [(1%nat, OPEN)] 0%nat (state alice_joined))))
       = JsMap.size (participants (state alice_joined)) - 1
    /\ currentStep (fst (onClose [(1%nat, OPEN)] 0%nat (state alice_joined)))
       = currentStep (state alice_joined)
    /\ (forall c, In (c, participant_left id)
                     (snd (onClose [(1%nat, OPEN)] 0%nat (state alice_joined)))
                  <-> In (c, OPEN) [(1%nat, OPEN)]).
Proof.
  apply (close_removes_the_participant [(1%nat, OPEN)] 0%nat (state alice_joined)
           (mkParticipant "a1" "Alice" [2] 0%nat)).
  - simpl. constructor; [intros [] | constructor].
  - reflexivity.
Defined.

(** When a socket without a participant closes, nothing changes and
    nothing is sent. *)
Theorem close_of_unjoined_socket_is_silent :
  forall wss ws st,
    (forall id p, In (id, p) (participants st) -> p_ws p <> ws) ->
    onClose wss ws st = (st, []).
Proof.
  intros wss ws st H. unfold onClose.
  destruct (find (fun e => Nat.eqb (p_ws (snd e)) ws) (participants st))
    as [[id q]|] eqn:E; [|reflexivity].
  pose proof (find_some _ _ E) as [Hin Hws]. simpl in Hws.
  apply Nat.eqb_eq in Hws. exfalso. exact (H id q Hin Hws).
Qed.

Lemma close_of_unjoined_socket_is_silent_witness :
  onClose (wss_clients alice_joined) 1%nat (state alice_joined)
  = (state alice_joined, []).
Proof.
  apply (close_of_unjoined_socket_is_silent (wss_clients alice_joined) 1%nat
           (state alice_joined)).
  intros id p Hin. simpl in Hin. destruct Hin as [Heq|[]].
  inversion Heq. simpl. discriminate.
Defined.

(** The socket that closed is not open any more, so the [participant_left]
    its close causes is never addressed to it. *)
Theorem close_never_notifies_the_closed_socket :
  forall wss ws st,
    ~ In (ws, OPEN) wss ->
    Forall (fun m => fst m <> ws) (snd (onClose wss ws st)).
Proof.
  intros wss ws st Hclosed. apply Forall_forall. intros [c msg] Hin Hc.
  simpl in Hc. subst c. unfold onClose in Hin.
  destruct (find _ (participants st)) as [[id q]|]; [|destruct Hin].
  cbn [snd] in Hin. pose proof (broadcast_only_msg _ _ _ _ _ Hin). subst msg.
  apply broadcast_only_open in Hin. exact (Hclosed (proj1 Hin)).
Qed.

Lemma close_never_notifies_the_closed_socket_witness :
  Forall (fun m => fst m <> 0%nat)
         (snd (onClose [(0%nat, CLOSED); (1%nat, OPEN)] 0%nat (state alice_joined))).
Proof.
  apply (close_never_notifies_the_closed_socket
           [(0%nat, CLOSED); (1%nat, OPEN)] 0%nat (state alice_joined)).
  simpl. intros [H|[H|[]]]; discriminate H.
Defined.

(** A socket without a participant that joins under an id not in use and
    then closes leaves the registry exactly as it found it. *)
Theorem join_then_close_restores_registry :
  forall (sv : server) newId ws (name : string),
    (forall id p, In (id, p) (participants (state sv)) -> p_ws p <> ws) ->
    JsMap.get newId (participants (state sv)) = None ->
    state (fst (run [message ws (Some (msg_join name)) newId; close ws] sv))
    = state sv.
Proof.
  intros [st wss] newId ws name Hfree Hfresh. cbn [state] in *.
  rewrite run_cons_fst. cbn [step_server onMessage wss_clients state].
  rewrite handleMessage_join. unfold handleJoin. cbn [fst p_id d_name msg_join].
  rewrite (set_absent _ _ _ Hfresh).
  cbn [run step_server wss_clients state].
  unfold onClose. cbn [participants with_participants].
  assert (Hfind : find (fun e => Nat.eqb (p_ws (snd e)) ws)
                       (participants st ++ [(newId, mkParticipant newId name [] ws)])
                  = Some (newId, mkParticipant newId name [] ws)).
  { clear Hfresh. induction (participants st) as [|[k q] m IH]; simpl.
    - rewrite Nat.eqb_refl. reflexivity.
    - destruct (Nat.eqb_spec (p_ws q) ws) as [Heq|Hne].
      + exfalso. apply (Hfree k q); [left; reflexivity | exact Heq].
      + apply IH. intros id p Hin. apply (Hfree id p). right. exact Hin. }
  rewrite Hfind. cbn [fst state participants with_participants currentStep steps].
  rewrite (delete_appended _ _ _ Hfresh). destruct st; reflexivity.
Qed.

Lemma join_then_close_restores_registry_witness :
  state (fst (run [message 1%nat (Some (msg_join "Bob")) "b1"; close 1%nat]
                  alice_joined))
  = state alice_joined.
Proof.
  apply (join_then_close_restores_registry alice_joined "b1" 1%nat "Bob").
  - intros id p Hin. simpl in Hin. destruct Hin as [Heq|[]].
    inversion Heq. simpl. discriminate.
  - reflexivity.
Defined.

(** *** Step complete, again *)

Lemma has_add (x : Z) (l : list Z) : JsSet.has x (JsSet.add x l) = true.
Proof.
  unfold JsSet.add. destruct (JsSet.has x l) eqn:E; [exact E|].
  unfold JsSet.has. rewrite existsb_app. simpl. rewrite Z.eqb_refl.
  apply orb_true_r.
Qed.

Lemma has_in (x : Z) (l : list Z) : JsSet.has x l = true <-> In x l.
Proof.
  unfold JsSet.has. rewrite existsb_exists. split.
  - intros [y [Hin Heq]]. apply Z.eqb_eq in Heq. subst y. exact Hin.
  - intros Hin. exists x. split; [exact Hin | apply Z.eqb_refl].
Qed.

Lemma add_keeps (x : Z) (l : list Z) : incl l (JsSet.add x l).
Proof.
  unfold JsSet.add. destruct (JsSet.has x l); [apply incl_refl|].
  apply incl_appl, incl_refl.
Qed.

Lemma mutate_first_entries ws (f : participant -> participant)
      (m : list (string * participant)) id p :
  In (id, p) m ->
  In (id, p) (mutate_first ws f m) \/ In (id, f p) (mutate_first ws f m).
Proof.
  induction m as [|[k q] m IH]; [intros []|].
  cbn [mutate_first]. intros [Heq|Hin].
  - inversion Heq; subst k q.
    destruct (Nat.eqb (p_ws p) ws); [right | left]; left; reflexivity.
  - destruct (Nat.eqb (p_ws q) ws).
    + left. right. exact Hin.
    + destruct (IH Hin) as [H|H]; [left | right]; right; exact H.
Qed.

Lemma mutate_first_length ws (f : participant -> participant)
      (m : list (string * participant)) :
  List.length (mutate_first ws f m) = List.length m.
Proof.
  induction m as [|[k q] m IH]; [reflexivity|]. cbn [mutate_first].
  destruct (Nat.eqb (p_ws q) ws); simpl; [reflexivity | rewrite IH; reflexivity].
Qed.

(** A [step_complete] never takes anything away: every entry of the
    registry is still there under its id, with the same id, name and
    socket and at least the completed steps it had; the registry keeps its
    size and the current step its value. *)
Theorem step_complete_only_adds :
  forall wss newId ws (stepId : Z) st,
    let st' := fst (handleMessage wss newId ws (msg_step_complete stepId) st) in
    (forall id p,
        In (id, p) (participants st) ->
        exists p',
          In (id, p') (participants st')
          /\ p_id p' = p_id p /\ p_name p' = p_name p /\ p_ws p' = p_ws p
          /\ incl (p_completedSteps p) (p_completedSteps p'))
    /\ JsMap.size (participants st') = JsMap.size (participants st)
    /\ currentStep st' = currentStep st.
Proof.
  intros wss newId ws stepId st st'. subst st'.
  rewrite handleMessage_step_complete. unfold handleStepComplete.
  destruct (findParticipantByWs ws st) as [found|];
    cbn [fst participants with_participants currentStep d_stepId msg_step_complete].
  - split; [|split; [unfold JsMap.size; rewrite mutate_first_length|]; reflexivity].
    intros id p Hin.
    destruct (mutate_first_entries ws (add_completed stepId) _ id p Hin) as [H|H].
    + exists p. repeat split; [exact H | apply incl_refl].
    + exists (add_completed stepId p). repeat split; [exact H|].
      apply add_keeps.
  - split; [|split; reflexivity].
    intros id p Hin. exists p. repeat split; [exact Hin | apply incl_refl].
Qed.

Lemma find_after_mutate ws (f : participant -> participant)
      (m : list (string * participant)) p :
  (forall q, p_ws (f q) = p_ws q) ->
  List.find (fun q => Nat.eqb (p_ws q) ws) (JsMap.values m) = Some p ->
  List.find (fun q => Nat.eqb (p_ws q) ws) (JsMap.values (mutate_first ws f m))
  = Some (f p).
Proof.
  intros Hf. unfold JsMap.values.
  induction m as [|[k q] m IH]; simpl; [discriminate|].
  destruct (Nat.eqb (p_ws q) ws) eqn:E; simpl.
  - intros H. inversion H; subst q. rewrite Hf, E. reflexivity.
  - rewrite E. exact IH.
Qed.

(** Progress reaches the snapshot: once a joined socket has sent
    [step_complete], the answer to any [request_state] lists that
    participant with the step among its completed steps. *)
Theorem completed_step_shows_in_snapshot :
  forall wss id0 id1 ws ws' (stepId : Z) st p,
    findParticipantByWs ws st = Some p ->
    let st1 := fst (handleMessage wss id0 ws (msg_step_complete stepId) st) in
    exists views v,
      snd (handleMessage wss id1 ws' msg_request_state st1)
      = [(ws', state_update views (currentStep st))]
      /\ In v views
      /\ v_id v = p_id p /\ v_name v = p_name p
      /\ In stepId (v_completedSteps v).
Proof.
  intros wss id0 id1 ws ws' stepId st p Hfind st1.
  assert (Hfind1 : findParticipantByWs ws st1 = Some (add_completed stepId p)).
  { subst st1. rewrite handleMessage_step_complete. unfold handleStepComplete.
    rewrite Hfind. unfold findParticipantByWs in *.
    cbn [fst participants with_participants d_stepId msg_step_complete].
    apply find_after_mutate; [reflexivity | exact Hfind]. }
  assert (Hcur : currentStep st1 = currentStep st).
  { subst st1. rewrite handleMessage_step_complete. unfold handleStepComplete.
    destruct (findParticipantByWs ws st); reflexivity. }
  exists (List.map view_of (JsMap.values (participants st1))).
  exists (view_of (add_completed stepId p)).
  rewrite handleMessage_request_state. unfold sendCurrentState. cbn [snd].
  rewrite Hcur. split; [reflexivity|].
  split.
  - apply in_map. unfold findParticipantByWs in Hfind1.
    exact (proj1 (find_some _ _ Hfind1)).
  - cbn. repeat split. apply has_in. apply has_add.
Qed.

Lemma completed_step_shows_in_snapshot_witness :
  exists views v,
    snd (handleMessage (wss_clients alice_joined) "r8" 1%nat msg_request_state
           (fst (handleMessage (wss_clients alice_joined) "r7" 0%nat
                               (msg_step_complete 5) (state alice_joined))))
    = [(1%nat, state_update views (currentStep (state alice_joined)))]
    /\ In v views
    /\ v_id v = "a1" /\ v_name v = "Alice"
    /\ In 5 (v_completedSteps v).
Proof.
  apply (completed_step_shows_in_snapshot (wss_clients alice_joined) "r7" "r8"
           0%nat 1%nat 5 (state alice_joined)
           (mkParticipant "a1" "Alice" [2] 0%nat)).
  reflexivity.
Defined.

End ServerMore.

(** * More on the client *)

Section ClientMore.

Import Client.

Implicit Types (a : WorkshopApp) (now : Z) (ev : event).

Lemma sends_app (es1 es2 : list effect) :
  sends (es1 ++ es2) = sends es1 ++ sends es2.
Proof.
  induction es1 as [|e es1 IH]; simpl; [reflexivity|].
  destruct e; simpl; rewrite ?IH; reflexivity.
Qed.

Lemma live_intervals_app (es1 es2 : list effect) :
  live_intervals (es1 ++ es2) = live_intervals es1 + live_intervals es2.
Proof.
  induction es1 as [|e es1 IH]; [reflexivity|].
  destruct e; cbn [app live_intervals]; rewrite ?IH; lia.
Qed.

Lemma run_cons_snd ev (evs : list event) a :
  snd (run (ev :: evs) a)
  = snd (step_client ev a) ++ snd (run evs (fst (step_client ev a))).
Proof.
  simpl. destruct (step_client ev a) as [a1 e1]. simpl.
  destruct (run evs a1). reflexivity.
Qed.

(** *** Connecting *)

(** A second [setupWebSocket] before the socket has opened or closed does
    nothing: no second socket is created for the same attempt. *)
Theorem setupWebSocket_twice_connects_once :
  forall a,
    setupWebSocket (fst (setupWebSocket a)) = (fst (setupWebSocket a), [])
    /\ ws (fst (setupWebSocket a)) = Some CONNECTING.
Proof.
  intros a. unfold setupWebSocket at 2 4. unfold ws_is.
  destruct (ws a) as [[| | |]|] eqn:E; cbn [readyState_eqb fst];
    unfold setupWebSocket, ws_is; cbn; rewrite ?E; split; reflexivity.
Qed.

(** *** Heartbeat *)

Ltac unfold_callbacks :=
  unfold setupWebSocket, onopen, onmessage, handleWebSocketMessage, onclose,
    onerror, heartbeat, joinWorkshop, completeCurrentStep, previousStepMaster,
    nextStepMaster, rejoinWorkshop, startHeartbeat, stopHeartbeat,
    scheduleReconnect, ws_is.

Lemma stopHeartbeat_intervals a :
  interval_count a + live_intervals (snd (stopHeartbeat a)) = 0
  /\ pingInterval (fst (stopHeartbeat a)) = None.
Proof.
  unfold stopHeartbeat, interval_count.
  destruct (pingInterval a) eqn:E; split; cbn; try reflexivity. exact E.
Qed.

Lemma startHeartbeat_intervals now a :
  interval_count a + live_intervals (snd (startHeartbeat now a)) = 1
  /\ interval_count (fst (startHeartbeat now a)) = 1.
Proof.
  unfold startHeartbeat. destruct (stopHeartbeat_intervals a) as [H _].
  destruct (stopHeartbeat a) as [a1 e1]. cbn [fst snd] in *.
  rewrite live_intervals_app. cbn. split; [lia | reflexivity].
Qed.

Lemma quiet_step_intervals ev a :
  (forall now, ev <> ev_open now) -> ev <> ev_close ->
  pingInterval (fst (step_client ev a)) = pingInterval a
  /\ live_intervals (snd (step_client ev a)) = 0.
Proof.
  intros Hopen Hclose.
  destruct ev;
    try (exfalso; first [apply (Hopen now) | apply Hclose]; reflexivity);
    cbn [step_client]; unfold_callbacks; cbn;
    try match goal with d : server_msg |- _ => destruct d; cbn end;
    repeat match goal with
           | |- context [if ?b then _ else _] => destruct b; cbn
           | |- context [match ?o with Some _ => _ | None => _ end] =>
               destruct o; cbn
           end;
    split; reflexivity.
Qed.

Lemma step_client_intervals ev a :
  interval_count a + live_intervals (snd (step_client ev a))
  = interval_count (fst (step_client ev a)).
Proof.
  destruct ev;
    try (match goal with
         | |- context [step_client ?e a] =>
             destruct (quiet_step_intervals e a ltac:(discriminate) ltac:(discriminate))
               as [Hp Hl];
             unfold interval_count; rewrite Hp, Hl; lia
         end).
  - (* open *)
    cbn [step_client]. unfold onopen. cbv zeta.
    set (a0 := set_reconnectAttempts (set_ws a (Some OPEN)) 0).
    assert (Hc : interval_count a0 = interval_count a) by reflexivity.
    destruct (String.eqb (mode a0) "participant" && truthy (participantName a0)
              && negb (truthy (participantId a0)));
      [unfold rejoinWorkshop | destruct (String.eqb (mode a0) "master")];
      destruct (startHeartbeat_intervals now a0) as [H1 H2];
      destruct (startHeartbeat now a0) as [a1 e3]; cbn [fst snd] in *;
      rewrite !live_intervals_app; cbn [live_intervals]; lia.
  - (* close *)
    cbn [step_client]. unfold onclose. cbv zeta.
    set (a0 := set_ws a (Some CLOSED)).
    assert (Hc : interval_count a0 = interval_count a) by reflexivity.
    destruct (stopHeartbeat_intervals a0) as [H1 H2].
    destruct (stopHeartbeat a0) as [a1 e2]. cbn [fst snd] in *.
    unfold scheduleReconnect. cbv zeta. cbn [fst snd].
    rewrite !live_intervals_app. unfold interval_count at 2.
    cbn [pingInterval set_reconnectTimeout set_reconnectAttempts]. rewrite H2.
    destruct (reconnectTimeout a1); cbn [live_intervals]; lia.
Qed.

(** Intervals do not pile up: over any run from a fresh client, the
    intervals started and not yet cleared number one while the client holds
    an interval handle and zero while it holds none. *)
Theorem at_most_one_heartbeat_interval :
  forall (loaded : list step) (urlMode : string) (evs : list event),
    live_intervals (snd (run evs (init loaded urlMode)))
    = interval_count (fst (run evs (init loaded urlMode)))
    /\ 0 <= live_intervals (snd (run evs (init loaded urlMode))) <= 1.
Proof.
  intros loaded urlMode evs.
  assert (H : forall a,
             interval_count a + live_intervals (snd (run evs a))
             = interval_count (fst (run evs a))).
  { induction evs as [|ev evs IH]; intros a; [simpl; lia|].
    rewrite run_cons_snd, run_cons_fst_client, live_intervals_app.
    rewrite <- IH, <- step_client_intervals. lia. }
  specialize (H (init loaded urlMode)).
  change (interval_count (init loaded urlMode)) with 0 in H.
  rewrite Z.add_0_l in H. split; [exact H|]. rewrite H. unfold interval_count.
  destruct (pingInterval _); lia.
Qed.

(** A pong moves the deadline: after a pong noted at time [t], a tick up
    to 10000 ms later only pings and leaves the socket open, however old
    the previous pong was. *)
Theorem pong_keeps_connection_open :
  forall a (t now : Z),
    ws a = Some OPEN ->
    now <= t + 10000 ->
    heartbeat now (fst (onmessage t pong a))
    = (fst (onmessage t pong a), [ws_send msg_ping])
    /\ ws (fst (onmessage t pong a)) = Some OPEN.
Proof.
  intros a t now Hopen Hin. cbn [onmessage fst]. split; [|exact Hopen].
  apply heartbeat_keeps_live_connection; [exact Hopen | exact Hin].
Qed.

Lemma pong_keeps_connection_open_witness :
  heartbeat 30000 (fst (onmessage 20000 pong (opened_at 0)))
  = (fst (onmessage 20000 pong (opened_at 0)), [ws_send msg_ping])
  /\ ws (fst (onmessage 20000 pong (opened_at 0))) = Some OPEN.
Proof.
  apply (pong_keeps_connection_open (opened_at 0) 20000 30000); reflexivity.
Defined.

(** *** Reconnect delays *)

Lemma delay_in_range (n : Z) :
  0 <= n -> 1000 <= Z.min (1000 * 2 ^ n) 30000 <= 30000.
Proof.
  intros Hn. pose proof (Z.pow_pos_nonneg 2 n ltac:(lia) Hn). lia.
Qed.

Lemma step_client_delays ev a :
  0 <= reconnectAttempts a ->
  0 <= reconnectAttempts (fst (step_client ev a))
  /\ Forall (fun delay => 1000 <= delay <= 30000)
            (reconnect_delays (snd (step_client ev a))).
Proof.
  intros Hn.
  destruct ev; cbn [step_client];
    try (unfold_callbacks; cbn -[Z.le];
         try match goal with d : server_msg |- _ => destruct d; cbn -[Z.le] end;
         repeat match goal with
                | |- context [if ?b then _ else _] => destruct b; cbn -[Z.le]
                | |- context [match ?o with Some _ => _ | None => _ end] =>
                    destruct o; cbn -[Z.le]
                end;
         (split; [first [exact Hn | lia] | constructor]); fail).
  unfold onclose. cbv zeta.
  destruct (stopHeartbeat (set_ws a (Some CLOSED))) as [a1 e2] eqn:E.
  assert (Ha1 : reconnectAttempts a1 = reconnectAttempts a
                /\ reconnect_delays e2 = []).
  { unfold stopHeartbeat in E. cbn [pingInterval set_ws] in E.
    destruct (pingInterval a); inversion E; subst; split; reflexivity. }
  destruct Ha1 as [Hatt He2].
  generalize (scheduleReconnect_delay a1).
  destruct (scheduleReconnect a1) as [a2 e3]. cbn [fst snd].
  intros [Hd Hinc]. split; [lia|].
  rewrite !reconnect_delays_app, He2, Hd. cbn.
  constructor; [|constructor]. apply delay_in_range. lia.
Qed.

(** Every reconnect the client schedules, over any run from a fresh
    client, is set between 1000 and 30000 ms ahead. *)
Theorem reconnect_delay_within_bounds :
  forall (loaded : list step) (urlMode : string) (evs : list event),
    Forall (fun delay => 1000 <= delay <= 30000)
           (reconnect_delays (snd (run evs (init loaded urlMode)))).
Proof.
  intros loaded urlMode evs.
  assert (H : forall a, 0 <= reconnectAttempts a ->
                        Forall (fun delay => 1000 <= delay <= 30000)
                               (reconnect_delays (snd (run evs a)))).
  { induction evs as [|ev evs IH]; intros a Hn; [constructor|].
    rewrite run_cons_snd, reconnect_delays_app.
    destruct (step_client_delays ev a Hn) as [Hn' Hd].
    apply Forall_app. split; [exact Hd | apply IH; exact Hn']. }
  apply H. cbn. lia.
Qed.

(** *** Joining and rejoining *)

(** A name entered while the socket is not open is kept and not sent; when
    the socket opens, a participant client that has no id yet sends the
    [join] with that name, and nothing else. *)
Theorem name_entered_offline_is_sent_on_open :
  forall a (name : string) now,
    name <> "" ->
    mode a = "participant" ->
    truthy (participantId a) = false ->
    ws_is OPEN a = false ->
    joinWorkshop name a = (set_participantName a (Some name), [])
    /\ sends (snd (step_client (ev_open now) (fst (joinWorkshop name a))))
       = [msg_join name].
Proof.
  intros a name now Hname Hmode Hid Hws.
  assert (Hj : joinWorkshop name a = (set_participantName a (Some name), [])).
  { unfold joinWorkshop. destruct (String.eqb_spec name ""); [contradiction|].
    unfold ws_is in *. cbn [ws set_participantName]. rewrite Hws. reflexivity. }
  split; [exact Hj|]. rewrite Hj. cbn [fst step_client].
  unfold onopen, rejoinWorkshop, startHeartbeat, stopHeartbeat.
  cbn -[String.eqb]. rewrite Hmode, Hid.
  rewrite (proj2 (String.eqb_neq name "") Hname). cbn.
  destruct (pingInterval a); reflexivity.
Qed.

Lemma name_entered_offline_is_sent_on_open_witness :
  joinWorkshop "Alice" participant_fresh
  = (set_participantName participant_fresh (Some "Alice"), [])
  /\ sends (snd (step_client (ev_open 0) (fst (joinWorkshop "Alice" participant_fresh))))
     = [msg_join "Alice"].
Proof.
  apply (name_entered_offline_is_sent_on_open participant_fresh "Alice" 0);
    [discriminate | reflexivity | reflexivity | reflexivity].
Defined.

(** Once a participant client holds an id, a reconnect sends nothing: the
    close, the new socket and its opening cause no [join], so the server,
    which dropped the participant at the close, is not told of the return. *)
Theorem reconnect_with_id_sends_no_join :
  forall a now,
    mode a = "participant" ->
    truthy (participantId a) = true ->
    sends (snd (run [ev_close; ev_setup; ev_open now] a)) = []
    /\ participantId (fst (run [ev_close; ev_setup; ev_open now] a))
       = participantId a.
Proof.
  intros a now Hmode Hid.
  cbn [run step_client].
  unfold onclose, onopen, setupWebSocket, rejoinWorkshop, startHeartbeat,
    stopHeartbeat, scheduleReconnect, ws_is.
  destruct (pingInterval a) eqn:Ep, (reconnectTimeout a) eqn:Et;
    do 4 (cbn -[String.eqb Z.min Z.mul Z.pow Z.add];
          rewrite ?Ep, ?Et, ?Hmode, ?Hid, ?andb_false_r);
    do 2 (cbn -[Z.min Z.mul Z.pow Z.add]; rewrite ?Ep, ?Et);
    split; reflexivity.
Qed.

Lemma reconnect_with_id_sends_no_join_witness :
  sends (snd (run [ev_close; ev_setup; ev_open 9000] participant_offline)) = []
  /\ participantId (fst (run [ev_close; ev_setup; ev_open 9000] participant_offline))
     = participantId participant_offline.
Proof.
  apply (reconnect_with_id_sends_no_join participant_offline 9000); reflexivity.
Defined.

Lemma step_client_participantId ev a :
  is_joined_message ev = false ->
  participantId (fst (step_client ev a)) = participantId a.
Proof.
  intros Hn.
  destruct ev; cbn [step_client]; unfold_callbacks; cbn;
    try match goal with
        | d : server_msg |- _ => destruct d; try discriminate Hn; cbn
        end;
    repeat match goal with
           | |- context [if ?b then _ else _] => destruct b; cbn
           | |- context [match ?o with Some _ => _ | None => _ end] =>
               destruct o; cbn
           end;
    reflexivity.
Qed.

(** The client's id is set by a [joined] message and by nothing else:
    closes, reconnects, other messages and button presses leave it as it
    is. *)
Theorem participantId_changes_only_on_joined :
  forall (evs : list event) a,
    existsb is_joined_message evs = false ->
    participantId (fst (run evs a)) = participantId a.
Proof.
  induction evs as [|ev evs IH]; intros a Hn; [reflexivity|].
  simpl in Hn. apply orb_false_elim in Hn. destruct Hn as [H1 H2].
  rewrite run_cons_fst_client, (IH _ H2). apply step_client_participantId. exact H1.
Qed.

Lemma participantId_changes_only_on_joined_witness :
  participantId
    (fst (run [ev_close; ev_setup; ev_open 9000; ev_message 9100 (step_changed 1);
               ev_completeCurrentStep; ev_heartbeat 14000]
              participant_offline))
  = participantId participant_offline.
Proof.
  apply (participantId_changes_only_on_joined
           [ev_close; ev_setup; ev_open 9000; ev_message 9100 (step_changed 1);
            ev_completeCurrentStep; ev_heartbeat 14000]
           participant_offline).
  reflexivity.
Defined.

(** *** Navigation *)

(** From an index that points at a step, the master's two buttons lead to
    an index that points at a step, and whatever they send is a
    [step_change] carrying that new index. *)
Theorem master_navigation_stays_in_bounds :
  forall a,
    0 <= currentStepIndex a < steps_length a ->
    (0 <= currentStepIndex (fst (previousStepMaster a)) < steps_length a
     /\ Forall (fun d => d = msg_step_change (currentStepIndex (fst (previousStepMaster a))))
               (sends (snd (previousStepMaster a))))
    /\ (0 <= currentStepIndex (fst (nextStepMaster a)) < steps_length a
        /\ Forall (fun d => d = msg_step_change (currentStepIndex (fst (nextStepMaster a))))
                  (sends (snd (nextStepMaster a)))).
Proof.
  intros a Hin. split.
  - unfold previousStepMaster.
    destruct (negb (String.eqb (mode a) "master")); cbn [orb].
    + split; [exact Hin | constructor].
    + destruct (Z.eqb_spec (currentStepIndex a) 0) as [H0|H0].
      * split; [exact Hin | constructor].
      * destruct (render_throws _); unfold ws_is;
          cbn [fst snd ws currentStepIndex set_currentStepIndex];
          (split; [lia|]); [repeat constructor|].
        destruct (ws a) as [r|]; [destruct (readyState_eqb r OPEN)|];
          cbn [app sends]; repeat constructor.
  - unfold nextStepMaster.
    destruct (negb (String.eqb (mode a) "master")); cbn [orb].
    + split; [exact Hin | constructor].
    + destruct (currentStepIndex a >=? steps_length a - 1) eqn:E.
      * split; [exact Hin | constructor].
      * rewrite Z.geb_leb in E. apply Z.leb_gt in E.
        destruct (render_throws _); unfold ws_is;
          cbn [fst snd ws currentStepIndex set_currentStepIndex];
          (split; [lia|]); [repeat constructor|].
        destruct (ws a) as [r|]; [destruct (readyState_eqb r OPEN)|];
          cbn [app sends]; repeat constructor.
Qed.

Lemma master_navigation_stays_in_bounds_witness :
  0 <= currentStepIndex master_on_second < steps_length master_on_second
  /\ (0 <= currentStepIndex (fst (previousStepMaster master_on_second))
      < steps_length master_on_second
      /\ Forall (fun d => d = msg_step_change
                                (currentStepIndex (fst (previousStepMaster master_on_second))))
                (sends (snd (previousStepMaster master_on_second))))
  /\ (0 <= currentStepIndex (fst (nextStepMaster master_on_second))
      < steps_length master_on_second
      /\ Forall (fun d => d = msg_step_change
                                (currentStepIndex (fst (nextStepMaster master_on_second))))
                (sends (snd (nextStepMaster master_on_second)))).
Proof.
  assert (Hin : 0 <= currentStepIndex master_on_second
                < steps_length master_on_second).
  { split; [apply Z.leb_le | apply Z.ltb_lt]; reflexivity. }
  split; [exact Hin|].
  apply (master_navigation_stays_in_bounds master_on_second). exact Hin.
Defined.

(** *** Completing a step *)

(** Pressing the complete button a second time changes nothing and sends
    nothing. *)
Theorem completeCurrentStep_twice :
  forall a,
    completeCurrentStep (fst (completeCurrentStep a))
    = (fst (completeCurrentStep a), []).
Proof.
  intros a. unfold completeCurrentStep at 2 3.
  destruct (negb (String.eqb (mode a) "participant")
            || negb (truthy (participantId a)) || (steps_length a =? 0)) eqn:G.
  - cbn [fst]. unfold completeCurrentStep. rewrite G. reflexivity.
  - destruct (steps_at a (currentStepIndex a)) as [s|] eqn:S.
    + destruct (JsSet.has (s_id s) (completedSteps a)) eqn:H.
      * cbn [fst]. unfold completeCurrentStep. rewrite G, S, H. reflexivity.
      * cbn [fst]. unfold completeCurrentStep.
        change (steps_length (set_completedSteps a _)) with (steps_length a).
        cbn [mode participantId set_completedSteps currentStepIndex completedSteps].
        rewrite G.
        change (steps_at (set_completedSteps a (JsSet.add (s_id s) (completedSteps a)))
                         (currentStepIndex a))
          with (steps_at a (currentStepIndex a)).
        rewrite S, has_add. reflexivity.
    + cbn [fst]. unfold completeCurrentStep. rewrite G, S. reflexivity.
Qed.

Lemma step_client_completed_grows ev a :
  incl (completedSteps a) (completedSteps (fst (step_client ev a))).
Proof.
  destruct (step_client_completedSteps ev a) as [Heq|[_ [s [_ Heq]]]];
    rewrite Heq; [apply incl_refl | apply add_keeps].
Qed.

Lemma step_client_never_resends ev a (sid : Z) :
  In sid (completedSteps a) ->
  Forall (fun d => d <> msg_step_complete sid) (sends (snd (step_client ev a))).
Proof.
  intros Hin.
  destruct ev; cbn [step_client];
    try (unfold_callbacks; cbn;
         try match goal with d : server_msg |- _ => destruct d; cbn end;
         repeat match goal with
                | |- context [if ?b then _ else _] => destruct b; cbn
                | |- context [match ?o with Some _ => _ | None => _ end] =>
                    destruct o; cbn
                end;
         repeat (constructor; try discriminate); fail).
  unfold completeCurrentStep.
  destruct (negb (String.eqb (mode a) "participant")
            || negb (truthy (participantId a)) || (steps_length a =? 0));
    [constructor|].
  destruct (steps_at a (currentStepIndex a)) as [s|]; [|constructor].
  destruct (JsSet.has (s_id s) (completedSteps a)) eqn:H; [constructor|].
  cbn [snd]. rewrite sends_app. cbn [sends app].
  assert (Hne : s_id s <> sid).
  { intros Heq. subst sid. apply has_in in Hin. rewrite Hin in H. discriminate. }
  unfold ws_is. cbn [ws set_completedSteps].
  destruct (ws a) as [r|]; [destruct (readyState_eqb r OPEN)|]; cbn [sends app];
    repeat constructor.
  intros Heq. inversion Heq. contradiction.
Qed.

Lemma run_never_resends (evs : list event) : forall a (sid : Z),
  In sid (completedSteps a) ->
  Forall (fun d => d <> msg_step_complete sid) (sends (snd (run evs a))).
Proof.
  induction evs as [|ev evs IH]; intros a sid Hin; [constructor|].
  rewrite run_cons_snd, sends_app. apply Forall_app. split.
  - apply step_client_never_resends. exact Hin.
  - apply IH. apply (step_client_completed_grows ev a). exact Hin.
Qed.

(** A step completed while the socket is not open is recorded locally and
    not sent, and nothing the client does afterwards sends it: no
    [step_complete] for a step already in the local set ever leaves the
    client, reconnected or not. *)
Theorem completed_offline_is_never_sent :
  forall a (evs : list event),
    ws_is OPEN a = false ->
    sends (snd (completeCurrentStep a)) = []
    /\ (forall sid,
           In sid (completedSteps (fst (completeCurrentStep a))) ->
           Forall (fun d => d <> msg_step_complete sid)
                  (sends (snd (run evs (fst (completeCurrentStep a)))))).
Proof.
  intros a evs Hws. split.
  - unfold completeCurrentStep.
    destruct (negb (String.eqb (mode a) "participant")
              || negb (truthy (participantId a)) || (steps_length a =? 0));
      [reflexivity|].
    destruct (steps_at a (currentStepIndex a)) as [s|]; [|reflexivity].
    destruct (JsSet.has (s_id s) (completedSteps a)); [reflexivity|].
    unfold ws_is in *. cbn [ws set_completedSteps snd]. rewrite Hws. reflexivity.
  - intros sid Hin. apply run_never_resends. exact Hin.
Qed.

Lemma completed_offline_is_never_sent_witness :
  (ws_is OPEN participant_offline = false
   /\ completedSteps (fst (completeCurrentStep participant_offline)) = [1])
  /\ sends (snd (completeCurrentStep participant_offline)) = []
  /\ (forall sid,
         In sid (completedSteps (fst (completeCurrentStep participant_offline))) ->
         Forall (fun d => d <> msg_step_complete sid)
                (sends (snd (run [ev_setup; ev_open 9000; ev_completeCurrentStep;
                                  ev_heartbeat 14000]
                                 (fst (completeCurrentStep participant_offline)))))).
Proof.
  split; [split; reflexivity|].
  apply (completed_offline_is_never_sent participant_offline
           [ev_setup; ev_open 9000; ev_completeCurrentStep; ev_heartbeat 14000]).
  reflexivity.
Defined.

(** *** The master's mirror of the participants *)

(** A participant who joins and leaves again passes through the mirror
    without trace, provided the id was not in the mirror before. *)
Theorem mirror_join_then_leave :
  forall a (p : participant_view) (t t' : Z),
    JsMap.get (v_id p) (participants a) = None ->
    participants
      (fst (run [ev_message t (participant_joined p);
                 ev_message t' (participant_left (v_id p))] a))
    = participants a.
Proof.
  intros a p t t' Hfresh. cbn.
  rewrite (set_absent _ _ _ Hfresh). apply delete_appended. exact Hfresh.
Qed.

Lemma mirror_join_then_leave_witness :
  participants
    (fst (run [ev_message 10 (participant_joined (mkView "b1" "Bob" []));
               ev_message 20 (participant_left "b1")] master_on_second))
  = participants master_on_second.
Proof.
  apply (mirror_join_then_leave master_on_second (mkView "b1" "Bob" []) 10 20).
  reflexivity.
Defined.

Lemma push_completed_twice (stepId : Z) (p : participant_view) :
  push_completed stepId (push_completed stepId p) = push_completed stepId p.
Proof.
  unfold push_completed. cbn [v_id v_name v_completedSteps].
  destruct (existsb (Z.eqb stepId) (v_completedSteps p)) eqn:E.
  - rewrite E. reflexivity.
  - rewrite existsb_app. cbn. rewrite Z.eqb_refl, orb_true_r. reflexivity.
Qed.

Lemma set_set_same {V : Type} (k : string) (v v' : V) (m : list (string * V)) :
  JsMap.set k v (JsMap.set k v' m) = JsMap.set k v m.
Proof.
  induction m as [|[k0 v0] m IH]; simpl.
  - rewrite String.eqb_refl. reflexivity.
  - destruct (String.eqb k0 k) eqn:E; simpl.
    + rewrite String.eqb_refl. reflexivity.
    + rewrite E, IH. reflexivity.
Qed.

(** The mirror takes a [step_completed] once: a second copy of the same
    event leaves it as the first did, and an event for a participant the
    mirror does not know is ignored. *)
Theorem mirror_step_completed_once :
  forall a (id : string) (stepId t t' : Z),
    fst (onmessage t' (step_completed id stepId)
                   (fst (onmessage t (step_completed id stepId) a)))
    = fst (onmessage t (step_completed id stepId) a)
    /\ (JsMap.get id (participants a) = None ->
        onmessage t (step_completed id stepId) a = (a, [])).
Proof.
  intros a id stepId t t'. cbn [onmessage handleWebSocketMessage].
  destruct (JsMap.get id (participants a)) as [p|] eqn:E.
  - split; [|discriminate]. cbn [fst participants set_participants].
    rewrite get_set_same. cbn [fst participants set_participants].
    rewrite push_completed_twice, set_set_same. reflexivity.
  - split; [|reflexivity]. cbn [fst]. rewrite E. reflexivity.
Qed.

Lemma fold_set_fresh (ps : list participant_view) :
  forall (m : list (string * participant_view)),
    NoDup (JsMap.keys m ++ List.map v_id ps) ->
    fold_left (fun m p => JsMap.set (v_id p) p m) ps m
    = m ++ List.map (fun p => (v_id p, p)) ps.
Proof.
  induction ps as [|p ps IH]; intros m Hnd; simpl.
  - rewrite app_nil_r. reflexivity.
  - simpl in Hnd.
    assert (Hfresh : JsMap.get (v_id p) m = None).
    { apply get_none_keys. intros Hin.
      apply NoDup_remove_2 in Hnd. apply Hnd. apply in_or_app. left. exact Hin. }
    rewrite (set_absent _ _ _ Hfresh), IH.
    + rewrite <- app_assoc. reflexivity.
    + unfold JsMap.keys in *. rewrite map_app, <- app_assoc. exact Hnd.
Qed.

End ClientMore.

(** * Client and server together *)

Section EndToEnd.

(** The join handshake.  A client with an open socket that is given a name
    sends one [join]; the first thing the server sends back to that socket
    is [joined], and on receiving it the client holds the id the server
    drew and shows the server's current step. *)
Theorem join_handshake :
  forall (a : Client.WorkshopApp) (name : string) (now : Z)
         (wss : Server.clients) (newId : string) (ws : socket_id)
         (st : Server.workshopState),
    name <> "" ->
    Client.ws_is OPEN a = true ->
    exists reply,
      Client.sends (snd (Client.joinWorkshop name a)) = [msg_join name]
      /\ hd_error (snd (Server.handleMessage wss newId ws (msg_join name) st))
         = Some (ws, reply)
      /\ Client.participantId
           (fst (Client.onmessage now reply (fst (Client.joinWorkshop name a))))
         = Some newId
      /\ Client.currentStepIndex
           (fst (Client.onmessage now reply (fst (Client.joinWorkshop name a))))
         = Server.currentStep st
      /\ Client.participantName
           (fst (Client.onmessage now reply (fst (Client.joinWorkshop name a))))
         = Some name.
Proof.
  intros a name now wss newId ws st Hname Hopen.
  exists (joined newId (Server.currentStep st)).
  unfold Client.joinWorkshop. rewrite (proj2 (String.eqb_neq name "") Hname).
  unfold Client.ws_is in *. cbn [Client.ws Client.set_participantName].
  rewrite Hopen. repeat split.
Qed.

Lemma join_handshake_witness :
  exists reply,
    Client.sends (snd (Client.joinWorkshop "Alice" (Client.opened_at 0)))
    = [msg_join "Alice"]
    /\ hd_error (snd (Server.handleMessage [(0%nat, OPEN)] "a1" 0%nat
                                           (msg_join "Alice") Server.initialState))
       = Some (0%nat, reply)
    /\ Client.participantId
         (fst (Client.onmessage 5 reply
                 (fst (Client.joinWorkshop "Alice" (Client.opened_at 0)))))
       = Some "a1"
    /\ Client.currentStepIndex
         (fst (Client.onmessage 5 reply
                 (fst (Client.joinWorkshop "Alice" (Client.opened_at 0)))))
       = Server.currentStep Server.initialState
    /\ Client.participantName
         (fst (Client.onmessage 5 reply
                 (fst (Client.joinWorkshop "Alice" (Client.opened_at 0)))))
       = Some "Alice".
Proof.
  apply (join_handshake (Client.opened_at 0) "Alice" 5 [(0%nat, OPEN)] "a1" 0%nat
           Server.initialState); [discriminate | reflexivity].
Defined.

(** The snapshot round trip.  When the ids of the registry are pairwise
    distinct, a client with an empty mirror that receives the answer to
    [request_state] holds the server's participants, view for view and in
    the server's order, and shows the server's current step. *)
Theorem snapshot_fills_empty_mirror :
  forall (a : Client.WorkshopApp) (now : Z)
         (wss : Server.clients) (newId : string) (ws : socket_id)
         (st : Server.workshopState),
    Client.participants a = [] ->
    NoDup (List.map Server.p_id (JsMap.values (Server.participants st))) ->
    exists reply,
      snd (Server.handleMessage wss newId ws msg_request_state st) = [(ws, reply)]
      /\ JsMap.values (Client.participants (fst (Client.onmessage now reply a)))
         = List.map Server.view_of (JsMap.values (Server.participants st))
      /\ Client.currentStepIndex (fst (Client.onmessage now reply a))
         = Server.currentStep st.
Proof.
  intros a now wss newId ws st Hempty Hnd.
  exists (state_update (List.map Server.view_of (JsMap.values (Server.participants st)))
                       (Server.currentStep st)).
  split; [reflexivity|]. split; [|reflexivity].
  cbn [Client.onmessage Client.handleWebSocketMessage fst Client.participants
       Client.set_participants Client.set_currentStepIndex].
  rewrite Hempty, fold_set_fresh.
  - cbn [app]. unfold JsMap.values at 1. rewrite map_map. cbn [snd].
    apply map_id.
  - cbn [JsMap.keys List.map app]. rewrite map_map. cbn [v_id Server.view_of].
    exact Hnd.
Qed.

Lemma snapshot_fills_empty_mirror_witness :
  exists reply,
    snd (Server.handleMessage (Server.wss_clients Server.alice_joined) "r9" 1%nat
                              msg_request_state (Server.state Server.alice_joined))
    = [(1%nat, reply)]
    /\ JsMap.values
         (Client.participants
            (fst (Client.onmessage 5 reply
                    (Client.init [Client.mkStep 1 "Intro"] "master"))))
       = List.map Server.view_of
                  (JsMap.values (Server.participants (Server.state Server.alice_joined)))
    /\ Client.currentStepIndex
         (fst (Client.onmessage 5 reply
                 (Client.init [Client.mkStep 1 "Intro"] "master")))
       = Server.currentStep (Server.state Server.alice_joined).
Proof.
  apply (snapshot_fills_empty_mirror
           (Client.init [Client.mkStep 1 "Intro"] "master") 5
           (Server.wss_clients Server.alice_joined) "r9" 1%nat
           (Server.state Server.alice_joined)).
  - reflexivity.
  - simpl. constructor; [intros [] | constructor].
Defined.

End EndToEnd.

(** * The heartbeat in time *)

Section TimedHeartbeat.

Import Client.

Implicit Types (a : WorkshopApp) (b : browser) (now due : Z).

Lemma timers_app now (es1 es2 : list effect) (iv : option (Z * Z)) :
  timers now (es1 ++ es2) iv = timers now es2 (timers now es1 iv).
Proof.
  revert iv. induction es1 as [|e es1 IH]; intros iv; [reflexivity|].
  destruct e; cbn [List.app timers]; apply IH.
Qed.

(** Opening the socket arms the interval: first call one period after the
    opening, the opening counted as the last pong. *)
Lemma open_arms_interval (t0 : Z) b :
  interval (fst (deliver t0 (ev_open t0) b)) = Some (t0 + 5000, 5000)
  /\ ws (webapp (fst (deliver t0 (ev_open t0) b))) = Some OPEN
  /\ lastPong (webapp (fst (deliver t0 (ev_open t0) b))) = t0.
Proof.
  unfold deliver. cbn [step_client]. unfold onopen. cbv zeta.
  set (a0 := set_reconnectAttempts (set_ws (webapp b) (Some OPEN)) 0).
  destruct (String.eqb (mode a0) "participant" && truthy (participantName a0)
            && negb (truthy (participantId a0)));
    [unfold rejoinWorkshop | destruct (String.eqb (mode a0) "master")];
    unfold startHeartbeat, stopHeartbeat;
    destruct (pingInterval a0);
    cbn [fst snd webapp interval List.app timers ws lastPong set_pingInterval
         set_lastPong];
    repeat split; reflexivity.
Qed.

Lemma fire_live b due :
  interval b = Some (due, 5000) -> ws (webapp b) = Some OPEN ->
  due <= lastPong (webapp b) + 10000 ->
  fire b = (mkBrowser (webapp b) (Some (due + 5000, 5000)), [ws_send msg_ping]).
Proof.
  intros Hiv Hopen Hin. unfold fire. rewrite Hiv. cbn [step_client].
  rewrite (heartbeat_keeps_live_connection _ _ Hopen Hin). reflexivity.
Qed.

Lemma fire_stale b due :
  interval b = Some (due, 5000) -> ws (webapp b) = Some OPEN ->
  lastPong (webapp b) + 10000 < due ->
  fire b = (mkBrowser (set_ws (webapp b) (Some CLOSING)) (Some (due + 5000, 5000)),
            [ws_send msg_ping; ws_close]).
Proof.
  intros Hiv Hopen Hlate. unfold fire. rewrite Hiv. cbn [step_client].
  rewrite (proj1 (heartbeat_closes_silent_connection _ _ Hopen Hlate)). reflexivity.
Qed.

Lemma fire_closing b due :
  interval b = Some (due, 5000) -> ws (webapp b) = Some CLOSING ->
  fire b = (mkBrowser (webapp b) (Some (due + 5000, 5000)), []).
Proof.
  intros Hiv Hcl. unfold fire. rewrite Hiv. cbn [step_client].
  unfold heartbeat, ws_is. rewrite Hcl. reflexivity.
Qed.

(** [n] calls of the interval on an armed browser: the interval stays
    armed, the last pong is not touched, a closed socket stays closed, a
    socket found closed afterwards was closed before or by one of the
    calls, and an open socket is closed once a call falls past the
    deadline. *)
Lemma fire_n_spec (n : nat) : forall b due,
  armed b due ->
  armed (fst (fire_n n b)) (due + 5000 * Z.of_nat n)
  /\ lastPong (webapp (fst (fire_n n b))) = lastPong (webapp b)
  /\ (ws (webapp b) = Some CLOSING -> ws (webapp (fst (fire_n n b))) = Some CLOSING)
  /\ (ws (webapp (fst (fire_n n b))) = Some CLOSING ->
      ws (webapp b) = Some CLOSING \/ In ws_close (snd (fire_n n b)))
  /\ (ws (webapp b) = Some OPEN -> (1 <= n)%nat ->
      lastPong (webapp b) + 10000 < due + 5000 * (Z.of_nat n - 1) ->
      ws (webapp (fst (fire_n n b))) = Some CLOSING).
Proof.
  induction n as [|n IH]; intros b due [Hiv Hws].
  - cbn [fire_n fst snd]. rewrite Z.mul_0_r, Z.add_0_r.
    split; [split; assumption|]. split; [reflexivity|]. split; [tauto|].
    split; [tauto|]. intros _ Hn. lia.
  - cbn [fire_n].
    assert (Hstep : exists b1 e1,
               fire b = (b1, e1) /\ armed b1 (due + 5000)
               /\ lastPong (webapp b1) = lastPong (webapp b)
               /\ (ws (webapp b) = Some CLOSING -> ws (webapp b1) = Some CLOSING /\ e1 = [])
               /\ (ws (webapp b) = Some OPEN ->
                   (due <= lastPong (webapp b) + 10000
                    /\ ws (webapp b1) = Some OPEN)
                   \/ (lastPong (webapp b) + 10000 < due
                       /\ ws (webapp b1) = Some CLOSING /\ In ws_close e1))).
    { destruct Hws as [Hopen|Hcl].
      - destruct (Z_le_gt_dec due (lastPong (webapp b) + 10000)) as [Hin|Hlate].
        + eexists. eexists. split; [apply (fire_live b due Hiv Hopen Hin)|].
          cbn [webapp interval]. split; [split; [reflexivity | left; exact Hopen]|].
          split; [reflexivity|]. split; [intros H; rewrite Hopen in H; discriminate|].
          intros _. left. split; assumption.
        + eexists. eexists. split; [apply (fire_stale b due Hiv Hopen); lia|].
          cbn [webapp interval ws set_ws lastPong].
          split; [split; [reflexivity | right; reflexivity]|].
          split; [reflexivity|]. split; [intros H; rewrite Hopen in H; discriminate|].
          intros _. right. split; [lia|]. split; [reflexivity|].
          right. left. reflexivity.
      - eexists. eexists. split; [apply (fire_closing b due Hiv Hcl)|].
        cbn [webapp interval]. split; [split; [reflexivity | right; exact Hcl]|].
        split; [reflexivity|]. split; [intros _; split; [exact Hcl | reflexivity]|].
        intros H. rewrite Hcl in H. discriminate. }
    destruct Hstep as [b1 [e1 [Hf [Harm1 [Hlp1 [Hcl1 Hop1]]]]]].
    rewrite Hf. destruct (IH b1 (due + 5000) Harm1) as [Harm [Hlp [Hkeep [Hwhy Hclose]]]].
    destruct (fire_n n b1) as [b2 e2]. cbn [fst snd] in *.
    replace (due + 5000 * Z.of_nat (S n)) with (due + 5000 + 5000 * Z.of_nat n) by lia.
    split; [exact Harm|]. split; [congruence|].
    split; [intros H; apply Hkeep; apply (Hcl1 H)|].
    split.
    + intros H. destruct (Hwhy H) as [H1|H2].
      * destruct Hws as [Hopen|Hcl]; [|left; exact Hcl].
        destruct (Hop1 Hopen) as [[_ Ho]|[_ [_ Hin]]].
        -- rewrite Ho in H1. discriminate.
        -- right. apply in_or_app. left. exact Hin.
      * right. apply in_or_app. right. exact H2.
    + intros Hopen _ Hlate. destruct (Hop1 Hopen) as [[Hin Ho]|[_ [Hc _]]].
      * apply Hclose; [exact Ho | lia | rewrite Hlp1; lia].
      * apply Hkeep. exact Hc.
Qed.

Lemma ticks_due_armed b due (until : Z) :
  interval b = Some (due, 5000) ->
  (due <= until ->
   Z.of_nat (ticks_due until b) = (until - due) / 5000 + 1)
  /\ (until < due -> ticks_due until b = O).
Proof.
  intros Hiv. unfold ticks_due. rewrite Hiv. split; intros H.
  - destruct (Z.leb_spec due until); [|lia]. cbn [andb Z.ltb Z.compare].
    rewrite Z2Nat.id; [reflexivity|].
    pose proof (Z.div_pos (until - due) 5000). lia.
  - destruct (Z.leb_spec due until); [lia | reflexivity].
Qed.

(** Time passing up to [until]: the next call lies after [until] and, when
    the interval was not already set further ahead, within a period of
    it. *)
Lemma elapse_spec b due (until : Z) :
  armed b due ->
  exists due',
    armed (fst (elapse until b)) due'
    /\ (due' = due \/ due' <= until + 5000)
    /\ lastPong (webapp (fst (elapse until b))) = lastPong (webapp b)
    /\ (ws (webapp b) = Some CLOSING ->
        ws (webapp (fst (elapse until b))) = Some CLOSING)
    /\ (ws (webapp (fst (elapse until b))) = Some CLOSING ->
        ws (webapp b) = Some CLOSING \/ In ws_close (snd (elapse until b)))
    /\ (ws (webapp b) = Some OPEN -> due <= until ->
        lastPong (webapp b) + 15000 <= until ->
        ws (webapp (fst (elapse until b))) = Some CLOSING).
Proof.
  intros Harm. unfold elapse.
  destruct (fire_n_spec (ticks_due until b) b due Harm)
    as [Harm' [Hlp [Hkeep [Hwhy Hclose]]]].
  destruct (ticks_due_armed b due until (proj1 Harm)) as [Hn Hz].
  exists (due + 5000 * Z.of_nat (ticks_due until b)).
  split; [exact Harm'|]. split.
  - destruct (Z_le_gt_dec due until) as [Hle|Hgt].
    + right. rewrite (Hn Hle). Z.div_mod_to_equations. lia.
    + left. rewrite Hz by lia. cbn. lia.
  - split; [exact Hlp|]. split; [exact Hkeep|]. split; [exact Hwhy|].
    intros Hopen Hle Hsilent. apply Hclose; [exact Hopen | |].
    + pose proof (Hn Hle). pose proof (Z.div_pos (until - due) 5000). lia.
    + rewrite (Hn Hle). Z.div_mod_to_equations. lia.
Qed.

Lemma deliver_pong b due (t : Z) :
  armed b due ->
  armed (fst (deliver t (ev_message t pong) b)) due
  /\ lastPong (webapp (fst (deliver t (ev_message t pong) b))) = t
  /\ ws (webapp (fst (deliver t (ev_message t pong) b))) = ws (webapp b)
  /\ snd (deliver t (ev_message t pong) b) = [].
Proof.
  intros [Hiv Hws]. unfold deliver. cbn.
  repeat split; [exact Hiv | exact Hws].
Qed.

Lemma receive_pongs_spec (pongs : list Z) : forall b due (clock : Z),
  armed b due -> due <= clock + 5000 -> in_order clock pongs = true ->
  exists due',
    armed (fst (receive_pongs pongs b)) due'
    /\ due' <= last_pong clock pongs + 5000
    /\ lastPong (webapp (fst (receive_pongs pongs b)))
       = last_pong (lastPong (webapp b)) pongs
    /\ (ws (webapp (fst (receive_pongs pongs b))) = Some CLOSING ->
        ws (webapp b) = Some CLOSING \/ In ws_close (snd (receive_pongs pongs b))).
Proof.
  induction pongs as [|t rest IH]; intros b due clock Harm Hdue Hord.
  - exists due. cbn. split; [exact Harm|]. split; [exact Hdue|].
    split; [reflexivity | tauto].
  - cbn [in_order] in Hord. apply andb_prop in Hord. destruct Hord as [Hle Hord].
    apply Z.leb_le in Hle. cbn [receive_pongs last_pong].
    destruct (elapse_spec b due t Harm) as [d1 [Harm1 [Hd1 [Hlp1 [Hkeep1 [Hwhy1 _]]]]]].
    destruct (elapse t b) as [b1 e1]. cbn [fst snd] in *.
    destruct (deliver_pong b1 d1 t Harm1) as [Harm2 [Hlp2 [Hws2 He2]]].
    destruct (deliver t (ev_message t pong) b1) as [b2 e2]. cbn [fst snd] in *.
    subst e2.
    assert (Hd2 : d1 <= t + 5000) by (destruct Hd1; lia).
    destruct (IH b2 d1 t Harm2 Hd2 Hord) as [d3 [Harm3 [Hd3 [Hlp3 Hwhy3]]]].
    destruct (receive_pongs rest b2) as [b3 e3]. cbn [fst snd] in *.
    exists d3. split; [exact Harm3|]. split; [exact Hd3|].
    split; [rewrite Hlp3, Hlp2; reflexivity|].
    intros H. destruct (Hwhy3 H) as [H2|Hin].
    + rewrite Hws2 in H2. destruct (Hwhy1 H2) as [H0|Hin1].
      * left. exact H0.
      * right. apply in_or_app. left. exact Hin1.
    + right. apply in_or_app. right. exact Hin.
Qed.



(** The same connection, step by step: pongs at 3000 and 9000 keep it open
    through the ticks at 5000, 10000 and 15000; the tick at 20000, the
    first one more than 10000 ms after the last pong, closes it. *)
Example session_with_two_pongs :
  ws (webapp (fst (session 0 [3000; 9000] 19999 (mkBrowser participant_fresh None))))
  = Some OPEN
  /\ sends (snd (session 0 [3000; 9000] 20000 (mkBrowser participant_fresh None)))
     = [msg_ping; msg_ping; msg_ping; msg_ping]
  /\ ws (webapp (fst (session 0 [3000; 9000] 20000 (mkBrowser participant_fresh None))))
     = Some CLOSING.
Proof. repeat split. Qed.

End TimedHeartbeat.

(** * Two joins on one socket *)

Section DoubleJoin.

Import Server.

Lemma get_app_absent {V : Type} (k : string) (m m' : list (string * V)) :
  JsMap.get k m = None -> JsMap.get k (m ++ m') = JsMap.get k m'.
Proof.
  induction m as [|[k0 v0] m IH]; simpl; [reflexivity|].
  destruct (String.eqb k0 k); [discriminate | exact IH].
Qed.

Lemma delete_app_absent {V : Type} (k : string) (m m' : list (string * V)) :
  JsMap.get k m = None -> JsMap.delete k (m ++ m') = m ++ JsMap.delete k m'.
Proof.
  induction m as [|[k0 v0] m IH]; simpl; [reflexivity|].
  destruct (String.eqb k0 k); [discriminate|].
  intros H. rewrite (IH H). reflexivity.
Qed.

Lemma bound_to_app ws (st : workshopState) (m m' : list (string * participant)) :
  participants st = m ++ m' ->
  (forall id p, In (id, p) m -> p_ws p <> ws) ->
  bound_to ws st
  = List.filter (fun p => Nat.eqb (p_ws p) ws) (JsMap.values m').
Proof.
  intros Hst Hfree. unfold bound_to, JsMap.values. rewrite Hst, map_app, filter_app.
  assert (Hnil : List.filter (fun p => Nat.eqb (p_ws p) ws) (List.map snd m) = []).
  { clear Hst. induction m as [|[k q] m IH]; [reflexivity|].
    cbn [List.map snd List.filter].
    destruct (Nat.eqb_spec (p_ws q) ws) as [Heq|Hne].
    - exfalso. apply (Hfree k q); [left; reflexivity | exact Heq].
    - apply IH. intros id p Hin. apply (Hfree id p). right. exact Hin. }
  rewrite Hnil. reflexivity.
Qed.

Lemma find_bound_app ws (m m' : list (string * participant)) :
  (forall id p, In (id, p) m -> p_ws p <> ws) ->
  List.find (fun e => Nat.eqb (p_ws (snd e)) ws) (m ++ m')
  = List.find (fun e => Nat.eqb (p_ws (snd e)) ws) m'.
Proof.
  intros Hfree. induction m as [|[k q] m IH]; [reflexivity|].
  cbn [List.app List.find snd].
  destruct (Nat.eqb_spec (p_ws q) ws) as [Heq|Hne].
  - exfalso. apply (Hfree k q); [left; reflexivity | exact Heq].
  - apply IH. intros id p Hin. apply (Hfree id p). right. exact Hin.
Qed.

Lemma run_app_fst (evs1 evs2 : list event) : forall (sv : server),
  fst (run (evs1 ++ evs2) sv) = fst (run evs2 (fst (run evs1 sv))).
Proof.
  induction evs1 as [|ev evs1 IH]; intros sv; [reflexivity|].
  cbn [List.app]. rewrite !run_cons_fst. apply IH.
Qed.

(** C4, at the input the claim names.  A socket without a participant
    sends [join] twice and [generateId] draws two ids not in use: the
    registry then holds two entries bound to that socket, and when the
    socket closes the listener deletes the first and stops, so the second
    stays in the registry, bound to a socket that is gone. *)
Theorem second_join_leaves_a_stale_participant :
  forall (sv : server) (ws : socket_id) (name1 name2 id1 id2 : string),
    (forall id p, In (id, p) (participants (state sv)) -> p_ws p <> ws) ->
    JsMap.get id1 (participants (state sv)) = None ->
    JsMap.get id2 (participants (state sv)) = None ->
    id1 <> id2 ->
    let joins := [message ws (Some (msg_join name1)) id1;
                  message ws (Some (msg_join name2)) id2] in
    bound_to ws (state (fst (run joins sv)))
    = [mkParticipant id1 name1 [] ws; mkParticipant id2 name2 [] ws]
    /\ bound_to ws (state (fst (run (joins ++ [close ws]) sv)))
       = [mkParticipant id2 name2 [] ws]
    /\ JsMap.get id2 (participants (state (fst (run (joins ++ [close ws]) sv))))
       = Some (mkParticipant id2 name2 [] ws).
Proof.
  intros [st wss] ws name1 name2 id1 id2 Hfree H1 H2 Hne joins. subst joins.
  cbn [state] in *.
  set (p1 := mkParticipant id1 name1 [] ws).
  set (p2 := mkParticipant id2 name2 [] ws).
  assert (Hjoined : participants (state (fst (run [message ws (Some (msg_join name1)) id1;
                                                  message ws (Some (msg_join name2)) id2]
                                                 (mkServer st wss))))
                    = participants st ++ [(id1, p1); (id2, p2)]).
  { rewrite !run_cons_fst. cbn [run fst step_server onMessage wss_clients state].
    rewrite !handleMessage_join. unfold handleJoin. cbv zeta.
    cbn [fst snd state wss_clients participants with_participants p_id d_name
         msg_join].
    rewrite (set_absent _ _ _ H1).
    rewrite set_absent.
    - rewrite <- app_assoc. reflexivity.
    - rewrite (get_app_absent _ _ _ H2). cbn [JsMap.get].
      destruct (String.eqb_spec id1 id2); [contradiction | reflexivity]. }
  assert (Hclosed : participants (state (fst (run ([message ws (Some (msg_join name1)) id1;
                                                   message ws (Some (msg_join name2)) id2]
                                                    ++ [close ws])
                                                  (mkServer st wss))))
                    = participants st ++ [(id2, p2)]).
  { rewrite run_app_fst.
    destruct (fst (run [message ws (Some (msg_join name1)) id1;
                        message ws (Some (msg_join name2)) id2] (mkServer st wss)))
      as [st2 wss2] eqn:E.
    cbn [state] in Hjoined.
    rewrite run_cons_fst. cbn [run fst step_server wss_clients state].
    unfold onClose. rewrite Hjoined.
    rewrite (find_bound_app ws _ _ Hfree). cbn [List.find snd p_ws p1].
    rewrite Nat.eqb_refl. cbn [fst state participants with_participants].
    rewrite (delete_app_absent _ _ _ H1). cbn [JsMap.delete].
    rewrite String.eqb_refl. reflexivity. }
  split; [|split].
  - rewrite (bound_to_app ws _ _ _ Hjoined Hfree). cbn. rewrite Nat.eqb_refl.
    reflexivity.
  - rewrite (bound_to_app ws _ _ _ Hclosed Hfree). cbn. rewrite Nat.eqb_refl.
    reflexivity.
  - rewrite Hclosed, (get_app_absent _ _ _ H2). cbn. rewrite String.eqb_refl.
    reflexivity.
Qed.

Lemma second_join_leaves_a_stale_participant_witness :
  bound_to 0%nat
    (state (fst (run [message 0%nat (Some (msg_join "Alice")) "a1";
                      message 0%nat (Some (msg_join "Alice")) "a2"] boot)))
  = [mkParticipant "a1" "Alice" [] 0%nat; mkParticipant "a2" "Alice" [] 0%nat]
  /\ bound_to 0%nat
       (state (fst (run ([message 0%nat (Some (msg_join "Alice")) "a1";
                          message 0%nat (Some (msg_join "Alice")) "a2"]
                           ++ [close 0%nat]) boot)))
     = [mkParticipant "a2" "Alice" [] 0%nat]
  /\ JsMap.get "a2"
       (participants
          (state (fst (run ([message 0%nat (Some (msg_join "Alice")) "a1";
                             message 0%nat (Some (msg_join "Alice")) "a2"]
                              ++ [close 0%nat]) boot))))
     = Some (mkParticipant "a2" "Alice" [] 0%nat).
Proof.
  apply (second_join_leaves_a_stale_participant boot 0%nat "Alice" "Alice" "a1" "a2").
  - intros id p [].
  - reflexivity.
  - reflexivity.
  - discriminate.
Defined.

End DoubleJoin.

(** * The progress text *)

Section ProgressText.

Import Client.

Lemma run_keeps_steps (evs : list event) : forall (a : WorkshopApp),
  steps (fst (run evs a)) = steps a.
Proof.
  induction evs as [|ev evs IH]; intros a; [reflexivity|].
  rewrite run_cons_fst_client, IH. apply step_client_steps.
Qed.


End ProgressText.
